(** * sniproxy: the configuration loader and the HTTP redirect handler

    A shallow embedding of [src/unnamed/part_000] (the loader with [acme]
    backends and anchored host matchers), of [src/config/config.go] (the
    loader with a plain backend address and unanchored host matchers) and of
    [src/main.go], together with models of the pieces of the Go standard
    library the loader calls: [strings.Split], [regexp.Compile] and
    [Regexp.MatchString] on a fragment of the RE2 syntax, and the [net]
    package's address parsers and [IPNet.Contains]. *)

From Stdlib Require Import String Ascii List ZArith Bool Lia.
Import ListNotations.

Open Scope string_scope.
Open Scope list_scope.

(** ** Outcomes of code that may call [log.Fatal]

    [log.Fatal] prints its message and calls [os.Exit(1)]: nothing after it
    runs. [Unmodelled] is the answer when the run leaves the fragment of the
    [regexp] syntax that this development models. *)

Inductive logmsg : Type :=
| Msg (text : string)
| Msgf (format : string) (args : list string).

Inductive outcome (A : Type) : Type :=
| Ok (a : A)
| Fatal (m : logmsg)
| Unmodelled.

Arguments Ok {A} a.
Arguments Fatal {A} m.
Arguments Unmodelled {A}.

Definition bind {A B : Type} (x : outcome A) (f : A -> outcome B) : outcome B :=
  match x with
  | Ok a => f a
  | Fatal m => Fatal m
  | Unmodelled => Unmodelled
  end.

Notation "x <- c1 ;; c2" := (bind c1 (fun x => c2))
  (at level 61, c1 at next level, right associativity).

(** [for _, x := range xs { acc = body(acc, x) }] where the body may be fatal. *)
Fixpoint range_loop {A S : Type} (body : S -> A -> outcome S) (xs : list A) (acc : S)
  : outcome S :=
  match xs with
  | [] => Ok acc
  | x :: rest => acc' <- body acc x ;; range_loop body rest acc'
  end.

Definition succeeded {A : Type} (x : outcome A) : bool :=
  match x with Ok _ => true | _ => false end.

Definition is_fatal {A : Type} (x : outcome A) : bool :=
  match x with Fatal _ => true | _ => false end.

(** The status the process exits with, when it does: [log.Fatal] exits with 1. *)
Definition exit_status {A : Type} (x : outcome A) : option Z :=
  match x with Fatal _ => Some 1%Z | _ => None end.

(** ** [strings] *)

Module strings.

(** [strings.Split(s, sep)] for a one-byte separator, the only way the loader
    calls it: the pieces of [s] between the occurrences of [sep], in order;
    a string without [sep] (the empty one too) gives one piece. *)
Fixpoint Split (s : string) (sep : ascii) : list string :=
  match s with
  | EmptyString => [EmptyString]
  | String c rest =>
      if Ascii.eqb c sep then EmptyString :: Split rest sep
      else match Split rest sep with
           | piece :: pieces => String c piece :: pieces
           | [] => [String c EmptyString]
           end
  end.

End strings.

Definition comma : ascii := ","%char.

(** ** [regexp]: a fragment of Go's RE2 syntax

    The fragment: literal ASCII bytes, [\] before an ASCII byte that is no
    letter or digit, [^] and [$] (begin and end of text: [regexp.Compile]
    parses with the Perl flags, which are one-line), [.*] and [.+], and a
    literal followed by [*], [+] or [?]. Matching is case-sensitive: the
    loader never sets the [(?i)] flag. On this fragment a matcher over bytes
    agrees with Go's matcher over runes, whatever bytes the input holds. *)

Module regexp.

Inductive atom : Type :=
| Lit (c : ascii)
| AnyNotNL.

Inductive item : Type :=
| Bol
| Eol
| One (c : ascii)
| Quest (c : ascii)
| Star (a : atom)
| Plus (a : atom).

Definition Regexp : Type := list item.

(** Codes of [regexp/syntax.ErrorCode]. The fragment raises the first three;
    the two others are what Go answers for a group or a class that is left
    open, which the fragment does not read. *)
Inductive ErrorCode : Type :=
| ErrMissingRepeatArgument
| ErrInvalidRepeatOp
| ErrTrailingBackslash
| ErrMissingParen
| ErrMissingBracket.

Inductive CompileResult : Type :=
| CompileOk (re : Regexp)
| CompileError (code : ErrorCode)
| CompileBeyond.

(** What the parser has just read. *)
Inductive pending : Type :=
| PStart
| PAnchor
| PAtom (a : atom)
| PRep.

Definition emit (i : item) (k : CompileResult) : CompileResult :=
  match k with
  | CompileOk re => CompileOk (i :: re)
  | other => other
  end.

(** A pending atom that no repetition follows stands for itself. A bare [.]
    matches one rune, which is beyond a matcher over bytes. *)
Definition flush (st : pending) (k : CompileResult) : CompileResult :=
  match st with
  | PAtom (Lit c) => emit (One c) k
  | PAtom AnyNotNL => CompileBeyond
  | _ => k
  end.

Definition is_ascii (c : ascii) : bool := (N_of_ascii c <? 128)%N.

Definition isalnum (c : ascii) : bool :=
  let n := N_of_ascii c in
  ((48 <=? n) && (n <=? 57) || (65 <=? n) && (n <=? 90) || (97 <=? n) && (n <=? 122))%N.

Definition is_repeat_op (c : ascii) : bool :=
  Ascii.eqb c "*" || Ascii.eqb c "+" || Ascii.eqb c "?".

(** [( ) [ ] { } |]: groups, classes, counted repetition and alternation. *)
Definition is_beyond_op (c : ascii) : bool :=
  Ascii.eqb c "(" || Ascii.eqb c ")" || Ascii.eqb c "[" || Ascii.eqb c "]"
  || Ascii.eqb c "{" || Ascii.eqb c "}" || Ascii.eqb c "|".

Definition repeat_item (op : ascii) (a : atom) : option item :=
  if Ascii.eqb op "*" then Some (Star a)
  else if Ascii.eqb op "+" then Some (Plus a)
  else match a with
       | Lit c => Some (Quest c)
       | AnyNotNL => None
       end.

Fixpoint scan (st : pending) (s : string) : CompileResult :=
  match s with
  | EmptyString => flush st (CompileOk [])
  | String c rest =>
      if negb (is_ascii c) then CompileBeyond
      else if is_beyond_op c then CompileBeyond
      else if Ascii.eqb c "\" then
        match rest with
        | EmptyString => CompileError ErrTrailingBackslash
        | String e rest' =>
            if is_ascii e && negb (isalnum e)
            then flush st (scan (PAtom (Lit e)) rest')
            else CompileBeyond
        end
      else if is_repeat_op c then
        match st with
        | PStart => CompileError ErrMissingRepeatArgument
        | PAnchor => CompileBeyond
        | PAtom a =>
            match repeat_item c a with
            | Some i => emit i (scan PRep rest)
            | None => CompileBeyond
            end
        | PRep => if Ascii.eqb c "?" then CompileBeyond
                  else CompileError ErrInvalidRepeatOp
        end
      else if Ascii.eqb c "^" then flush st (emit Bol (scan PAnchor rest))
      else if Ascii.eqb c "$" then flush st (emit Eol (scan PAnchor rest))
      else if Ascii.eqb c "." then flush st (scan (PAtom AnyNotNL) rest)
      else flush st (scan (PAtom (Lit c)) rest)
  end.

Definition Compile (expr : string) : CompileResult := scan PStart expr.

Definition newline : ascii := "010"%char.

Definition atom_ok (a : atom) (x : ascii) : bool :=
  match a with
  | Lit c => Ascii.eqb x c
  | AnyNotNL => negb (Ascii.eqb x newline)
  end.

(** Zero or more [a], then the continuation [k]. [bot] says whether the
    position is the beginning of the text. *)
Fixpoint star_loop (k : bool -> string -> bool) (a : atom) (bot : bool) (s : string)
  : bool :=
  k bot s
  || match s with
     | String x rest => atom_ok a x && star_loop k a false rest
     | EmptyString => false
     end.

(** Does [re] match a prefix of [s]? *)
Fixpoint matchhere (re : Regexp) (bot : bool) (s : string) : bool :=
  match re with
  | [] => true
  | Bol :: re' => bot && matchhere re' bot s
  | Eol :: re' =>
      match s with
      | EmptyString => matchhere re' bot s
      | String _ _ => false
      end
  | One c :: re' =>
      match s with
      | String x rest => Ascii.eqb x c && matchhere re' false rest
      | EmptyString => false
      end
  | Quest c :: re' =>
      matchhere re' bot s
      || match s with
         | String x rest => Ascii.eqb x c && matchhere re' false rest
         | EmptyString => false
         end
  | Star a :: re' => star_loop (matchhere re') a bot s
  | Plus a :: re' =>
      match s with
      | String x rest => atom_ok a x && star_loop (matchhere re') a false rest
      | EmptyString => false
      end
  end.

Fixpoint search (re : Regexp) (bot : bool) (s : string) : bool :=
  matchhere re bot s
  || match s with
     | String _ rest => search re false rest
     | EmptyString => false
     end.

(** [re.MatchString(s)]: does [s] contain a match of [re]? *)
Definition MatchString (re : Regexp) (s : string) : bool := search re true s.

End regexp.

(** ** [net]: addresses, masks, networks and their parsers

    Bytes are integers in [0, 256); a conversion [byte(n)] is written
    [n mod 256]. A slice that Go tests against [nil] is an [option]. *)

Module net.

Definition IP : Type := list Z.
Definition IPMask : Type := list Z.

Record IPNet : Type := mkIPNet { ipnet_IP : IP; ipnet_Mask : IPMask }.

Definition IPv4len : nat := 4.
Definition IPv6len : nat := 16.

Definition byte (n : Z) : Z := n mod 256.

Definition byte_ok (b : Z) : bool := (0 <=? b)%Z && (b <? 256)%Z.

Definition bytes_ok (bs : list Z) : bool := forallb byte_ok bs.

Definition bytes_eqb (a b : list Z) : bool :=
  Nat.eqb (length a) (length b)
  && forallb (fun i => Z.eqb (nth i a 0%Z) (nth i b 0%Z)) (seq 0 (length a)).

(** [l[i] = v]; every write of the parsers is in range. *)
Fixpoint update (l : list Z) (i : nat) (v : Z) : list Z :=
  match l, i with
  | [], _ => []
  | _ :: rest, O => v :: rest
  | x :: rest, S i' => x :: update rest i' v
  end.

(** [l[lo:hi]] *)
Definition slice (l : list Z) (lo hi : nat) : list Z := firstn (hi - lo) (skipn lo l).

(** [s[n:]] and [s[n]] on strings. *)
Fixpoint string_drop (n : nat) (s : string) : string :=
  match n, s with
  | O, _ => s
  | S n', String _ rest => string_drop n' rest
  | S _, EmptyString => EmptyString
  end.

Definition byte_at (s : string) (n : nat) : option ascii := String.get n s.

Definition is_char (o : option ascii) (c : ascii) : bool :=
  match o with
  | Some x => Ascii.eqb x c
  | None => false
  end.

Definition code (c : ascii) : Z := Z.of_N (N_of_ascii c).

Definition between (lo hi c : ascii) : bool :=
  (code lo <=? code c)%Z && (code c <=? code hi)%Z.

Definition big : Z := 16777215.

(** [dtoi]: the decimal number at the start of [s], the count of bytes it
    takes, and whether there is one below [big]. *)
Fixpoint dtoi_loop (s : string) (n : Z) (i : nat) : Z * nat * bool :=
  match s with
  | String c rest =>
      if between "0" "9" c then
        let n' := (n * 10 + (code c - code "0"))%Z in
        if (n' >=? big)%Z then (big, i, false)
        else dtoi_loop rest n' (S i)
      else if Nat.eqb i 0 then (0%Z, 0, false) else (n, i, true)
  | EmptyString => if Nat.eqb i 0 then (0%Z, 0, false) else (n, i, true)
  end.

Definition dtoi (s : string) : Z * nat * bool := dtoi_loop s 0%Z 0.

(** [xtoi]: the same for a hexadecimal number. *)
Definition hex_digit (c : ascii) : option Z :=
  if between "0" "9" c then Some (code c - code "0")%Z
  else if between "a" "f" c then Some (code c - code "a" + 10)%Z
  else if between "A" "F" c then Some (code c - code "A" + 10)%Z
  else None.

Fixpoint xtoi_loop (s : string) (n : Z) (i : nat) : Z * nat * bool :=
  match s with
  | String c rest =>
      match hex_digit c with
      | Some d =>
          let n' := (n * 16 + d)%Z in
          if (n' >=? big)%Z then (0%Z, i, false)
          else xtoi_loop rest n' (S i)
      | None => if Nat.eqb i 0 then (0%Z, i, false) else (n, i, true)
      end
  | EmptyString => if Nat.eqb i 0 then (0%Z, i, false) else (n, i, true)
  end.

Definition xtoi (s : string) : Z * nat * bool := xtoi_loop s 0%Z 0.

Definition v4InV6Prefix : list Z := [0; 0; 0; 0; 0; 0; 0; 0; 0; 0; 255; 255]%Z.

Definition IPv4 (a b c d : Z) : IP := v4InV6Prefix ++ [a; b; c; d].

(** [parseIPv4]: the loop [for i := 0; i < IPv4len; i++], with
    [i = IPv4len - todo]; [p] holds the bytes read so far. A component with
    a leading zero is refused. *)
Fixpoint parseIPv4_loop (todo : nat) (s : string) (p : list Z) : option (list Z * string) :=
  match todo with
  | O => Some (p, s)
  | S todo' =>
      let i := IPv4len - todo in
      if Nat.eqb (String.length s) 0 then None
      else
        let after_dot :=
          if Nat.ltb 0 i
          then (if is_char (byte_at s 0) "." then Some (string_drop 1 s) else None)
          else Some s in
        match after_dot with
        | None => None
        | Some s1 =>
            let '(n, c, ok) := dtoi s1 in
            if negb ok || (n >? 255)%Z then None
            else if Nat.ltb 1 c && is_char (byte_at s1 0) "0" then None
            else parseIPv4_loop todo' (string_drop c s1) (p ++ [byte n])
        end
  end.

Definition parseIPv4 (s : string) : option IP :=
  match parseIPv4_loop IPv4len s [] with
  | Some (p, rest) =>
      if negb (Nat.eqb (String.length rest) 0) then None
      else Some (IPv4 (nth 0 p 0) (nth 1 p 0) (nth 2 p 0) (nth 3 p 0))%Z
  | None => None
  end.

(** The state of [parseIPv6] when its loop is left by [break] or by its
    condition: the address, [i], [ellipsis] and what is left of [s]. *)
Definition v6state : Type := (list Z * nat * Z * string)%type.

(** [parseIPv6]: the loop [for i < IPv6len], in which every pass that goes on
    adds two to [i]: [i = IPv6len - 2 * todo]. *)
Fixpoint parseIPv6_loop (todo : nat) (ip : list Z) (ellipsis : Z) (s : string)
  : option v6state :=
  match todo with
  | O => Some (ip, IPv6len, ellipsis, s)
  | S todo' =>
      let i := IPv6len - 2 * todo in
      let '(n, c, ok) := xtoi s in
      if negb ok || (n >? 65535)%Z then None
      else if Nat.ltb c (String.length s) && is_char (byte_at s c) "." then
        if (ellipsis <? 0)%Z && negb (Nat.eqb i (IPv6len - IPv4len)) then None
        else if Nat.ltb IPv6len (i + IPv4len) then None
        else
          match parseIPv4 s with
          | None => None
          | Some ip4 =>
              let ip := update ip i (nth 12 ip4 0%Z) in
              let ip := update ip (i + 1) (nth 13 ip4 0%Z) in
              let ip := update ip (i + 2) (nth 14 ip4 0%Z) in
              let ip := update ip (i + 3) (nth 15 ip4 0%Z) in
              Some (ip, i + IPv4len, ellipsis, EmptyString)
          end
      else
        let ip := update ip i (byte (Z.shiftr n 8)) in
        let ip := update ip (i + 1) (byte n) in
        let i := i + 2 in
        let s := string_drop c s in
        if Nat.eqb (String.length s) 0 then Some (ip, i, ellipsis, s)
        else if negb (is_char (byte_at s 0) ":") || Nat.eqb (String.length s) 1 then None
        else
          let s := string_drop 1 s in
          if is_char (byte_at s 0) ":" then
            if (ellipsis >=? 0)%Z then None
            else
              let ellipsis := Z.of_nat i in
              let s := string_drop 1 s in
              if Nat.eqb (String.length s) 0 then Some (ip, i, ellipsis, s)
              else parseIPv6_loop todo' ip ellipsis s
          else parseIPv6_loop todo' ip ellipsis s
  end.

(** [for j := i - 1; j >= ellipsis; j-- { ip[j+n] = ip[j] }], then
    [for j := ellipsis + n - 1; j >= ellipsis; j-- { ip[j] = 0 }]. *)
Definition expand_ellipsis (ip : list Z) (i ellipsis : nat) : list Z :=
  let n := IPv6len - i in
  let moved :=
    fold_left (fun ip j => update ip (j + n) (nth j ip 0%Z))
              (rev (seq ellipsis (i - ellipsis))) ip in
  fold_left (fun ip j => update ip j 0%Z) (rev (seq ellipsis n)) moved.

Definition parseIPv6 (s : string) : option IP :=
  let ip := repeat 0%Z IPv6len in
  let leading :=
    Nat.leb 2 (String.length s) && is_char (byte_at s 0) ":" && is_char (byte_at s 1) ":" in
  let ellipsis := if leading then 0%Z else (-1)%Z in
  let s := if leading then string_drop 2 s else s in
  if leading && Nat.eqb (String.length s) 0 then Some ip
  else
    match parseIPv6_loop 8 ip ellipsis s with
    | None => None
    | Some (ip, i, ellipsis, s) =>
        if negb (Nat.eqb (String.length s) 0) then None
        else if Nat.ltb i IPv6len then
          if (ellipsis <? 0)%Z then None
          else Some (expand_ellipsis ip i (Z.to_nat ellipsis))
        else if (ellipsis >=? 0)%Z then None
        else Some ip
    end.

(** [ParseIP]: the first [.] or [:] of [s] decides the syntax. *)
Fixpoint ParseIP_scan (s rest : string) : option IP :=
  match rest with
  | EmptyString => None
  | String c rest' =>
      if Ascii.eqb c "." then parseIPv4 s
      else if Ascii.eqb c ":" then parseIPv6 s
      else ParseIP_scan s rest'
  end.

Definition ParseIP (s : string) : option IP := ParseIP_scan s s.

(** [CIDRMask(ones, bits)]; [nil] is the empty mask. *)
Fixpoint CIDRMask_loop (l : nat) (n : Z) : IPMask :=
  match l with
  | O => []
  | S l' =>
      if (n >=? 8)%Z then 255%Z :: CIDRMask_loop l' (n - 8)
      else byte (Z.lxor 255 (Z.shiftr 255 n)) :: CIDRMask_loop l' 0
  end.

Definition CIDRMask (ones bits : Z) : IPMask :=
  if negb (Z.eqb bits (8 * Z.of_nat IPv4len)) && negb (Z.eqb bits (8 * Z.of_nat IPv6len))
  then []
  else if (ones <? 0)%Z || (ones >? bits)%Z then []
  else CIDRMask_loop (Z.to_nat (bits / 8)) ones.

Definition isZeros (p : list Z) : bool := forallb (Z.eqb 0) p.

Definition allFF (p : list Z) : bool := forallb (Z.eqb 255) p.

(** [ip.To4()] *)
Definition To4 (ip : IP) : option IP :=
  if Nat.eqb (length ip) IPv4len then Some ip
  else if Nat.eqb (length ip) IPv6len
          && isZeros (slice ip 0 10)
          && Z.eqb (nth 10 ip 0%Z) 255
          && Z.eqb (nth 11 ip 0%Z) 255
  then Some (slice ip 12 16)
  else None.

(** [ip.Mask(mask)] *)
Definition Mask (ip : IP) (mask : IPMask) : option IP :=
  let mask :=
    if Nat.eqb (length mask) IPv6len && Nat.eqb (length ip) IPv4len
       && allFF (slice mask 0 12)
    then skipn 12 mask else mask in
  let ip :=
    if Nat.eqb (length mask) IPv4len && Nat.eqb (length ip) IPv6len
       && bytes_eqb (slice ip 0 12) v4InV6Prefix
    then skipn 12 ip else ip in
  let n := length ip in
  if negb (Nat.eqb n (length mask)) then None
  else Some (map (fun i => Z.land (nth i ip 0%Z) (nth i mask 0%Z)) (seq 0 n)).

(** [ParseCIDR]: the address and the network of [s], or an error. *)
Fixpoint IndexByte (s : string) (c : ascii) : option nat :=
  match s with
  | EmptyString => None
  | String x rest =>
      if Ascii.eqb x c then Some 0
      else match IndexByte rest c with
           | Some i => Some (S i)
           | None => None
           end
  end.

Definition ParseCIDR (s : string) : option (IP * IPNet) :=
  match IndexByte s "/" with
  | None => None
  | Some i =>
      let addr := String.substring 0 i s in
      let mask := string_drop (i + 1) s in
      let '(iplen, ip) :=
        match parseIPv4 addr with
        | Some ip => (IPv4len, Some ip)
        | None => (IPv6len, parseIPv6 addr)
        end in
      let '(n, j, ok) := dtoi mask in
      match ip with
      | None => None
      | Some ip =>
          if negb ok || negb (Nat.eqb j (String.length mask))
             || (n <? 0)%Z || (n >? 8 * Z.of_nat iplen)%Z
          then None
          else
            let m := CIDRMask n (8 * Z.of_nat iplen) in
            match Mask ip m with
            | Some masked => Some (ip, mkIPNet masked m)
            | None => Some (ip, mkIPNet [] m)
            end
      end
  end.

(** [networkNumberAndMask(n)] *)
Definition networkNumberAndMask (n : IPNet) : option (IP * IPMask) :=
  let ip :=
    match To4 (ipnet_IP n) with
    | Some ip4 => Some ip4
    | None => if Nat.eqb (length (ipnet_IP n)) IPv6len then Some (ipnet_IP n) else None
    end in
  match ip with
  | None => None
  | Some ip =>
      if Nat.eqb (length (ipnet_Mask n)) IPv4len then
        if Nat.eqb (length ip) IPv4len then Some (ip, ipnet_Mask n) else None
      else if Nat.eqb (length (ipnet_Mask n)) IPv6len then
        if Nat.eqb (length ip) IPv4len then Some (ip, skipn 12 (ipnet_Mask n))
        else Some (ip, ipnet_Mask n)
      else None
  end.

(** The loop of [Contains]: [nn[i]&m[i] != ip[i]&m[i]] for no [i] below [l]. *)
Definition Contains_loop (nn : IP) (m : IPMask) (ip : IP) (l : nat) : bool :=
  forallb
    (fun i => Z.eqb (Z.land (nth i nn 0%Z) (nth i m 0%Z))
                    (Z.land (nth i ip 0%Z) (nth i m 0%Z)))
    (seq 0 l).

(** [n.Contains(ip)] *)
Definition Contains (n : IPNet) (ip : IP) : bool :=
  let '(nn, m) :=
    match networkNumberAndMask n with
    | Some r => r
    | None => ([], [])
    end in
  let ip := match To4 ip with Some x => x | None => ip end in
  let l := length ip in
  if negb (Nat.eqb l (length nn)) then false
  else Contains_loop nn m ip l.

End net.

(** ** The directive tree *)

(** Modelled from the spec: the [Directive] type, which the parser file (not
    among the sources) declares. The configuration is a nested block syntax:
    a directive has a name, arguments and a nested block of directives; the
    three fields are the ones [parse] and [parseBackend] read. *)
#[warning="-register-all"]
Inductive Directive : Type :=
  mkDirective { Name : string; Args : list string; Directives : list Directive }.

(** Go's [error] values, by their text. *)
Definition error : Type := string.

(** Modelled from the spec: the file system and the lexer and parser of the
    block syntax ([os.Open], [newLexer], [parseDirective]), which [ReadFile]
    calls and the sources do not hold. Nothing is assumed of them:
    [parseDirective] may answer any directive tree, or be fatal. *)
Record Env : Type := mkEnv {
  File : Type;
  Lexer : Type;
  os_Open : string -> File + error;
  newLexer : File -> Lexer;
  parseDirective : Lexer -> outcome Directive
}.

(** ** [parseRange], the same text in both loaders *)

Definition parseRange (subnet : string) : outcome net.IPNet :=
  match net.ParseCIDR subnet with
  | Some (_, ipnet) => Ok ipnet
  | None =>
      match net.ParseIP subnet with
      | None => Fatal (Msg ("Could not parse subnet " ++ subnet))
      | Some ip =>
          match net.To4 ip with
          | Some v4 => Ok (net.mkIPNet ip (net.CIDRMask 32 32))
          | None => Ok (net.mkIPNet ip (net.CIDRMask 128 128))
          end
      end
  end.

(** [for _, subnet := range(strings.Split(arg, ",")) { l = append(l, parseRange(subnet)) }] *)
Definition append_ranges (l : list net.IPNet) (arg : string) : outcome (list net.IPNet) :=
  range_loop (fun l subnet => n <- parseRange subnet ;; Ok (l ++ [n]))
             (strings.Split arg comma) l.

(** [_, all4, _ := net.ParseCIDR("0.0.0.0/0")]: the error is dropped, and a
    failed parse would leave a nil network. *)
Definition cidr_or_nil (s : string) : net.IPNet :=
  match net.ParseCIDR s with
  | Some (_, n) => n
  | None => net.mkIPNet [] []
  end.

Definition all4 : net.IPNet := cidr_or_nil "0.0.0.0/0".
Definition all6 : net.IPNet := cidr_or_nil "::/0".

(** [regex += ...] for one rune of the domain. [range] walks runes; on ASCII
    text a rune is a byte, and a string with other bytes leaves the modelled
    fragment of [regexp] in any case. *)
Definition regex_piece (r : ascii) : string :=
  if Ascii.eqb r "*" then ".*"
  else if Ascii.eqb r "." then "\."
  else String r EmptyString.

Fixpoint domain2Regex_loop (regex : string) (domain : string) : string :=
  match domain with
  | EmptyString => regex
  | String r rest => domain2Regex_loop (regex ++ regex_piece r) rest
  end.

(** [rgp, err := domain2Regex(domain); if err != nil { log.Fatal(...) }] *)
Definition compile_domain (domain2Regex : string -> regexp.CompileResult)
  (domain : string) : outcome regexp.Regexp :=
  match domain2Regex domain with
  | regexp.CompileOk rgp => Ok rgp
  | regexp.CompileError _ => Fatal (Msg ("Invalid domain: " ++ domain))
  | regexp.CompileBeyond => Unmodelled
  end.

(** The body of the loop over the domains: compile, then
    [route.Domains = append(route.Domains, rgp)]. *)
Definition append_domain (domain2Regex : string -> regexp.CompileResult)
  (domains : list regexp.Regexp) (domain : string) : outcome (list regexp.Regexp) :=
  rgp <- compile_domain domain2Regex domain ;; Ok (domains ++ [rgp]).

(** [SendProxy] possible values: [iota] counts the lines of the block. *)
Definition ProxyNone : N := 0.
Definition ProxyV1 : N := 1.
Definition ProxyV2 : N := 2.

(** ** [src/unnamed/part_000] *)

Module part_000.

Record Backend : Type := mkBackend { Address : string; SendProxy : N }.

Record Route : Type := mkRoute {
  Domains : list regexp.Regexp;
  RouteBackend : option Backend;
  ACME : option Backend;
  Deny : list net.IPNet;
  Allow : list net.IPNet
}.

Record Config : Type := mkConfig { Routes : list Route }.

Definition set_Domains (r : Route) (v : list regexp.Regexp) : Route :=
  mkRoute v (RouteBackend r) (ACME r) (Deny r) (Allow r).
Definition set_Backend (r : Route) (v : option Backend) : Route :=
  mkRoute (Domains r) v (ACME r) (Deny r) (Allow r).
Definition set_ACME (r : Route) (v : option Backend) : Route :=
  mkRoute (Domains r) (RouteBackend r) v (Deny r) (Allow r).
Definition set_Deny (r : Route) (v : list net.IPNet) : Route :=
  mkRoute (Domains r) (RouteBackend r) (ACME r) v (Allow r).
Definition set_Allow (r : Route) (v : list net.IPNet) : Route :=
  mkRoute (Domains r) (RouteBackend r) (ACME r) (Deny r) v.

Definition domain2Regex (domain : string) : regexp.CompileResult :=
  regexp.Compile (domain2Regex_loop "^" domain ++ "$").

(** The body of the loop of [parseBackend]: a [switch] with no default. *)
Definition parseBackend_case (backend : Backend) (d : Directive) : outcome Backend :=
  if String.eqb (Name d) "send-proxy" then
    if Nat.ltb 0 (length (Args d)) then Fatal (Msg "Invalid send-proxy directive")
    else Ok (mkBackend (Address backend) ProxyV1)
  else if String.eqb (Name d) "send-proxy-v2" then
    if Nat.ltb 0 (length (Args d)) then Fatal (Msg "Invalid send-proxy directive")
    else Ok (mkBackend (Address backend) ProxyV2)
  else Ok backend.

(** [directive.Args[0]] is read after [parse] has checked [len(dir.Args)]. *)
Definition parseBackend (directive : Directive) : outcome Backend :=
  range_loop parseBackend_case (Directives directive)
             (mkBackend (nth 0 (Args directive) EmptyString) ProxyNone).

(** The body of the loop over [directive.Directives]. *)
Definition parse_case (route : Route) (dir : Directive) : outcome Route :=
  if String.eqb (Name dir) "backend" then
    if negb (Nat.eqb (length (Args dir)) 1) then Fatal (Msg "Invalid backend directive")
    else b <- parseBackend dir ;; Ok (set_Backend route (Some b))
  else if String.eqb (Name dir) "acme" then
    if negb (Nat.eqb (length (Args dir)) 1) then Fatal (Msg "Invalid acme directive")
    else b <- parseBackend dir ;; Ok (set_ACME route (Some b))
  else if String.eqb (Name dir) "deny" then
    if negb (Nat.eqb (length (Args dir)) 1) then Fatal (Msg "Invalid deny directive")
    else l <- append_ranges (Deny route) (nth 0 (Args dir) EmptyString) ;;
         Ok (set_Deny route l)
  else if String.eqb (Name dir) "allow" then
    if negb (Nat.eqb (length (Args dir)) 1) then Fatal (Msg "Invalid allow directive")
    else l <- append_ranges (Allow route) (nth 0 (Args dir) EmptyString) ;;
         Ok (set_Allow route l)
  else Ok route.

(** [if len(route.Allow) > 0 { ... }] *)
Definition default_deny (route : Route) : Route :=
  if Nat.ltb 0 (length (Allow route))
  then set_Deny route ((Deny route ++ [all4]) ++ [all6])
  else route.

(** One pass of the loop over [root.Directives]. The route is appended to
    [c.Routes] by pointer before it is filled; a fatal exit leaves no
    configuration to look at, so the model appends the filled route. *)
Definition parse_route (directive : Directive) : outcome Route :=
  let route := mkRoute [] None None [] [] in
  domains <- range_loop (append_domain domain2Regex)
                        (strings.Split (Name directive) comma) (Domains route) ;;
  route <- range_loop parse_case (Directives directive) (set_Domains route domains) ;;
  Ok (default_deny route).

Definition parse (c : Config) (root : Directive) : outcome Config :=
  routes <- range_loop (fun routes directive =>
                          route <- parse_route directive ;; Ok (routes ++ [route]))
                       (Directives root) (Routes c) ;;
  Ok (mkConfig routes).

(** [ReadFile] answers the configuration and the error it returns. *)
Definition ReadFile (env : Env) (c : Config) (file : string)
  : outcome (Config * option error) :=
  match os_Open env file with
  | inr err => Ok (c, Some err)
  | inl f =>
      let l := newLexer env f in
      root <- parseDirective env l ;;
      c' <- parse c root ;;
      Ok (c', None)
  end.

End part_000.

(** ** [src/config/config.go] *)

Module config_go.

Record Route : Type := mkRoute {
  Domains : list regexp.Regexp;
  Backend : string;
  Deny : list net.IPNet;
  Allow : list net.IPNet;
  SendProxy : N
}.

Record Config : Type := mkConfig { Routes : list Route }.

Definition set_Domains (r : Route) (v : list regexp.Regexp) : Route :=
  mkRoute v (Backend r) (Deny r) (Allow r) (SendProxy r).
Definition set_Backend (r : Route) (v : string) : Route :=
  mkRoute (Domains r) v (Deny r) (Allow r) (SendProxy r).
Definition set_Deny (r : Route) (v : list net.IPNet) : Route :=
  mkRoute (Domains r) (Backend r) v (Allow r) (SendProxy r).
Definition set_Allow (r : Route) (v : list net.IPNet) : Route :=
  mkRoute (Domains r) (Backend r) (Deny r) v (SendProxy r).
Definition set_SendProxy (r : Route) (v : N) : Route :=
  mkRoute (Domains r) (Backend r) (Deny r) (Allow r) v.

Definition domain2Regex (domain : string) : regexp.CompileResult :=
  regexp.Compile (domain2Regex_loop "" domain).

Definition parse_case (route : Route) (dir : Directive) : outcome Route :=
  if String.eqb (Name dir) "backend" then
    if negb (Nat.eqb (length (Args dir)) 1) then Fatal (Msg "Invalid backend directive")
    else Ok (set_Backend route (nth 0 (Args dir) EmptyString))
  else if String.eqb (Name dir) "deny" then
    if negb (Nat.eqb (length (Args dir)) 1) then Fatal (Msg "Invalid deny directive")
    else l <- append_ranges (Deny route) (nth 0 (Args dir) EmptyString) ;;
         Ok (set_Deny route l)
  else if String.eqb (Name dir) "allow" then
    if negb (Nat.eqb (length (Args dir)) 1) then Fatal (Msg "Invalid allow directive")
    else l <- append_ranges (Allow route) (nth 0 (Args dir) EmptyString) ;;
         Ok (set_Allow route l)
  else if String.eqb (Name dir) "send-proxy" then
    if Nat.ltb 0 (length (Args dir)) then Fatal (Msg "Invalid send-proxy directive")
    else Ok (set_SendProxy route ProxyV1)
  else if String.eqb (Name dir) "send-proxy-v2" then
    if Nat.ltb 0 (length (Args dir)) then Fatal (Msg "Invalid send-proxy directive")
    else Ok (set_SendProxy route ProxyV2)
  else Ok route.

Definition default_deny (route : Route) : Route :=
  if Nat.ltb 0 (length (Allow route))
  then set_Deny route ((Deny route ++ [all4]) ++ [all6])
  else route.

Definition parse_route (directive : Directive) : outcome Route :=
  let route := mkRoute [] EmptyString [] [] ProxyNone in
  domains <- range_loop (append_domain domain2Regex)
                        (strings.Split (Name directive) comma) (Domains route) ;;
  route <- range_loop parse_case (Directives directive) (set_Domains route domains) ;;
  Ok (default_deny route).

Definition parse (c : Config) (root : Directive) : outcome Config :=
  routes <- range_loop (fun routes directive =>
                          route <- parse_route directive ;; Ok (routes ++ [route]))
                       (Directives root) (Routes c) ;;
  Ok (mkConfig routes).

Definition ReadFile (env : Env) (c : Config) (file : string)
  : outcome (Config * option error) :=
  match os_Open env file with
  | inr err => Ok (c, Some err)
  | inl f =>
      let l := newLexer env f in
      root <- parseDirective env l ;;
      c' <- parse c root ;;
      Ok (c', None)
  end.

End config_go.

(** ** [src/main.go] *)

Module main_go.

(** The fields of [http.Request] that the handler reads, and what it sets in
    the response. *)
Record Request : Type := mkRequest { Host : string; RequestURI : string }.

Record Response : Type := mkResponse { StatusCode : Z; Location : string }.

Definition StatusMovedPermanently : Z := 301.

Definition hex_char (n : N) : ascii :=
  if (n <? 10)%N then ascii_of_N (48 + n) else ascii_of_N (87 + n).

(** [net/http]'s [hexEscapeNonASCII]: a byte from 0x80 on becomes [%] and its
    two hexadecimal digits. *)
Fixpoint hexEscapeNonASCII (s : string) : string :=
  match s with
  | EmptyString => EmptyString
  | String c rest =>
      let n := N_of_ascii c in
      if (128 <=? n)%N
      then String "%" (String (hex_char (n / 16)) (String (hex_char (n mod 16))
                                                          (hexEscapeNonASCII rest)))
      else String c (hexEscapeNonASCII rest)
  end.

(** [http.Redirect(w, r, url, code)] for a [url] that has a scheme: the
    [Location] header is the escaped [url], the status is [code]. *)
Definition http_Redirect (r : Request) (url : string) (code : Z) : Response :=
  mkResponse code (hexEscapeNonASCII url).

Definition newRedirect (redirectPort : string) (r : Request) : Response :=
  http_Redirect r ("https://" ++ Host r ++ redirectPort ++ RequestURI r)
                StatusMovedPermanently.

(** The default of the [-bind] flag. *)
Definition default_bind : string := ":443".

Section Main.

(** The configuration type and its [ReadFile], of either loader. *)
Variable Config : Type.
Variable ReadFile : Config -> string -> outcome (Config * option error).
Variable empty_config : Config.

(** Modelled from the spec: the [Proxy] type of the proxy file (not among the
    sources), of which [main] uses the [Config] field. *)
Record Proxy : Type := mkProxy { Proxy_Config : Config }.

(** What [main] goes on to once the configuration is loaded: the redirect
    listener [http.ListenAndServe(":80", newRedirect(bind))] in a goroutine
    and [p.ListenAndServe(bind)]. *)
Record Serving : Type := mkServing {
  redirect_addr : string;
  redirect_handler : Request -> Response;
  proxy : Proxy;
  proxy_addr : string
}.

Definition main (conf bind : string) : outcome Serving :=
  if String.eqb conf "" then Fatal (Msg "No config provided. Aborting.")
  else
    r <- ReadFile empty_config conf ;;
    match r with
    | (_, Some err) => Fatal (Msgf "Could not read config %q (%s)" [conf; err])
    | (c, None) => Ok (mkServing ":80" (newRedirect bind) (mkProxy c) bind)
    end.

End Main.

End main_go.

(** ** The claims' own words, to compare the code with *)

Definition lower (c : ascii) : ascii :=
  if net.between "A" "Z" c then ascii_of_N (N_of_ascii c + 32) else c.

Definition eq_fold (x c : ascii) : bool := Ascii.eqb (lower x) (lower c).

(** Zero or more bytes other than a line feed (what [.*] stands for), then [k]. *)
Fixpoint glob_star (k : string -> bool) (s : string) : bool :=
  k s
  || match s with
     | String x rest => negb (Ascii.eqb x regexp.newline) && glob_star k rest
     | EmptyString => false
     end.

(** The anchored reading of a domain pattern: [*] is [.*], every other byte
    stands for itself under the comparison [eqc], and the whole host must be
    used up. *)
Fixpoint glob (eqc : ascii -> ascii -> bool) (p s : string) : bool :=
  match p with
  | EmptyString =>
      match s with
      | EmptyString => true
      | String _ _ => false
      end
  | String c p' =>
      if Ascii.eqb c "*" then glob_star (glob eqc p') s
      else match s with
           | String x rest => eqc x c && glob eqc p' rest
           | EmptyString => false
           end
  end.

(** The matcher as the specification words it: case-insensitive. *)
Definition spec_host_match (p s : string) : bool := glob eq_fold p s.

(** The matcher with the comparison of the code: byte for byte. *)
Definition glob_exact (p s : string) : bool := glob Ascii.eqb p s.

(** A byte of a pattern that the translation passes on and [regexp] reads as
    a literal: ASCII, and none of [\ + ? ( ) [ ] { } | ^ $]. *)
Definition literal_char (c : ascii) : bool :=
  regexp.is_ascii c
  && negb (regexp.is_beyond_op c)
  && negb (regexp.is_repeat_op c)
  && negb (Ascii.eqb c "\")
  && negb (Ascii.eqb c "^")
  && negb (Ascii.eqb c "$")
  && negb (Ascii.eqb c ".").

Fixpoint glob_pattern (p : string) : bool :=
  match p with
  | EmptyString => true
  | String c p' =>
      (Ascii.eqb c "*" || Ascii.eqb c "." || literal_char c) && glob_pattern p'
  end.

(** The matcher that the loader of a file builds for a pattern accepts a host. *)
Definition accepts (compiled : regexp.CompileResult) (s : string) : bool :=
  match compiled with
  | regexp.CompileOk re => regexp.MatchString re s
  | _ => false
  end.

(** The port of a bind address: what follows its last colon. *)
Fixpoint bind_port (b : string) : string :=
  match b with
  | EmptyString => EmptyString
  | String c rest =>
      if existsb (Ascii.eqb ":") (list_ascii_of_string rest) then bind_port rest
      else if Ascii.eqb c ":" then rest else String c rest
  end.

(** The [Location] as the specification words it. *)
Definition spec_Location (b h u : string) : string :=
  if String.eqb (bind_port b) "443" then "https://" ++ h ++ u
  else "https://" ++ h ++ ":" ++ bind_port b ++ u.

(** The prefixes that the [deny] directives of a route block declare. *)
Fixpoint declared (name : string) (dirs : list Directive) : list string :=
  match dirs with
  | [] => []
  | d :: rest =>
      if String.eqb (Name d) name
      then strings.Split (nth 0 (Args d) EmptyString) comma ++ declared name rest
      else declared name rest
  end.

Definition has_name (name : string) (dirs : list Directive) : bool :=
  existsb (fun d => String.eqb (Name d) name) dirs.

(** The last [send-proxy] or [send-proxy-v2] of a block decides the variant. *)
Fixpoint last_variant (dirs : list Directive) (v : N) : N :=
  match dirs with
  | [] => v
  | d :: rest =>
      if String.eqb (Name d) "send-proxy" then last_variant rest ProxyV1
      else if String.eqb (Name d) "send-proxy-v2" then last_variant rest ProxyV2
      else last_variant rest v
  end.

(** The matcher items of a pattern of [*], [.] and literal bytes. *)
Fixpoint glob_items (p : string) : regexp.Regexp :=
  match p with
  | EmptyString => []
  | String c p' =>
      (if Ascii.eqb c "*" then regexp.Star regexp.AnyNotNL else regexp.One c)
      :: glob_items p'
  end.

(** What a pending atom adds when no repetition follows it. *)
Definition pend (st : regexp.pending) : regexp.Regexp :=
  match st with
  | regexp.PAtom (regexp.Lit c) => [regexp.One c]
  | _ => []
  end.

Definition settled (st : regexp.pending) : bool :=
  match st with
  | regexp.PAtom regexp.AnyNotNL => false
  | _ => true
  end.

(** Sixteen bytes: what [ParseIP] answers. *)
Definition wf16 (ip : net.IP) : Prop := length ip = 16 /\ net.bytes_ok ip = true.

(** The rule of the implicit default-deny: the [Deny] list of a route is the
    list of the prefixes that the [deny] directives of its block declare, in
    order, followed by [0.0.0.0/0] and [::/0] when [Allow] is not empty. *)
Definition deny_rule (dirs : list Directive) (deny allow : list net.IPNet) : Prop :=
  exists denied,
    Forall2 (fun s n => parseRange s = Ok n) (declared "deny" dirs) denied
    /\ deny = match allow with
              | [] => denied
              | _ :: _ => denied ++ [all4; all6]
              end.

(** What a run over the directives [dirs] of a route block has done to a
    route: its domains are kept, and the prefixes that the [deny] and [allow]
    directives declare are appended, in order, to [Deny] and to [Allow]. *)
Definition fields_after {R : Type} (doms : R -> list regexp.Regexp)
  (deny allow : R -> list net.IPNet) (dirs : list Directive) (r r' : R) : Prop :=
  doms r' = doms r
  /\ (exists dl, Forall2 (fun s n => parseRange s = Ok n) (declared "deny" dirs) dl
                 /\ deny r' = deny r ++ dl)
  /\ (exists al, Forall2 (fun s n => parseRange s = Ok n) (declared "allow" dirs) al
                 /\ allow r' = allow r ++ al).

(** The configuration of an outcome, for the examples. *)
Definition loaded {A : Type} (default : A) (x : outcome A) : A :=
  match x with
  | Ok a => a
  | _ => default
  end.

Definition leaf (name : string) (args : list string) : Directive :=
  mkDirective name args [].

(** [example.com { backend 127.0.0.1:9000; allow 10.0.0.0/8; deny 10.1.0.0/16 }] *)
Definition allow_deny_root : Directive :=
  mkDirective "" []
    [mkDirective "example.com" []
       [leaf "backend" ["127.0.0.1:9000"];
        leaf "allow" ["10.0.0.0/8"];
        leaf "deny" ["10.1.0.0/16"]]].

(** [example.com,*.example.com { backend ... }] and
    [other.org { backend ... { send-proxy } }] *)
Definition two_routes_root : Directive :=
  mkDirective "" []
    [mkDirective "example.com,*.example.com" [] [leaf "backend" ["127.0.0.1:9000"]];
     mkDirective "other.org" []
       [mkDirective "backend" ["127.0.0.1:9001"] [leaf "send-proxy" []]]].

(** [backend 127.0.0.1:9000 { send-proxy; send-proxy-v2 }] and the same with
    the two children in the other order. *)
Definition proxy_then_v2 : Directive :=
  mkDirective "backend" ["127.0.0.1:9000"] [leaf "send-proxy" []; leaf "send-proxy-v2" []].

Definition v2_then_proxy : Directive :=
  mkDirective "backend" ["127.0.0.1:9000"] [leaf "send-proxy-v2" []; leaf "send-proxy" []].

(** [backend 127.0.0.1:9001 { send-proxy }], and a route whose backend has
    two arguments. *)
Definition proxy_backend : Directive :=
  mkDirective "backend" ["127.0.0.1:9001"] [leaf "send-proxy" []].

Definition two_args_root : Directive :=
  mkDirective "" []
    [mkDirective "example.com" [] [leaf "backend" ["127.0.0.1:9000"; "extra"]]].

(** The names that the route block of each loader knows, and the names that
    the backend block of [part_000] knows. *)
Definition route_keywords : list string := ["backend"; "acme"; "deny"; "allow"].
Definition proxy_keywords : list string := ["send-proxy"; "send-proxy-v2"].
Definition legacy_route_keywords : list string := ["backend"; "deny"; "allow"].

(** Does the text hold a colon? A bare address without one is in dotted
    decimal form. *)
Definition has_colon (s : string) : bool :=
  existsb (Ascii.eqb ":") (list_ascii_of_string s).

(** [::ffff:1.2.3.4], sixteen bytes. *)
Definition mapped_1_2_3_4 : net.IP :=
  [0; 0; 0; 0; 0; 0; 0; 0; 0; 0; 255; 255; 1; 2; 3; 4]%Z.

(** Text of bytes below 0x80. *)
Fixpoint ascii_text (s : string) : bool :=
  match s with
  | EmptyString => true
  | String c rest => regexp.is_ascii c && ascii_text rest
  end.

(** A request as in the scenario of the specification:
    [GET /x?y HTTP/1.1], [Host: h.example]. *)
Definition get_x_y : main_go.Request := main_go.mkRequest "h.example" "/x?y".

(** A file system with no file at all, and one with one file that parses to a
    given tree. *)
Definition no_file : Env :=
  mkEnv unit unit (fun _ => inr "open: no such file or directory")
        (fun f => f) (fun _ => Ok (mkDirective "" [] [])).

Definition one_file (root : Directive) : Env :=
  mkEnv unit unit (fun _ => inl tt) (fun f => f) (fun _ => Ok root).

(** [a.example,,b.example { backend 127.0.0.1:9000 }]: a doubled comma. *)
Definition doubled_comma_root : Directive :=
  mkDirective "" []
    [mkDirective "a.example,,b.example" [] [leaf "backend" ["127.0.0.1:9000"]]].

(** The errors that the content of a configuration can hold for the loader
    of [part_000]: a domain that [regexp] refuses, a [deny] or [allow] element
    that is neither a prefix nor an address, a directive of the route block
    with the wrong count of arguments, a [send-proxy] or [send-proxy-v2] of a
    backend block with an argument. *)
Definition content_error (root : Directive) : Prop :=
  (exists d dom e,
     In d (Directives root) /\ In dom (strings.Split (Name d) comma)
     /\ part_000.domain2Regex dom = regexp.CompileError e)
  \/ (exists d dir sub,
        In d (Directives root) /\ In dir (Directives d)
        /\ In (Name dir) ["deny"; "allow"]
        /\ In sub (strings.Split (nth 0 (Args dir) "") comma)
        /\ net.ParseCIDR sub = None /\ net.ParseIP sub = None)
  \/ (exists d dir,
        In d (Directives root) /\ In dir (Directives d)
        /\ In (Name dir) route_keywords /\ length (Args dir) <> 1)
  \/ (exists d dir g,
        In d (Directives root) /\ In dir (Directives d)
        /\ In (Name dir) ["backend"; "acme"] /\ In g (Directives dir)
        /\ In (Name g) proxy_keywords /\ Args g <> []).

(** Every domain of the tree is within the modelled fragment of [regexp]. *)
Definition in_fragment (root : Directive) : Prop :=
  forall d dom, In d (Directives root) -> In dom (strings.Split (Name d) comma) ->
                part_000.domain2Regex dom <> regexp.CompileBeyond.

(** [a++ { backend 127.0.0.1:9000 }]: a domain that [regexp] refuses. *)
Definition bad_domain_root : Directive :=
  mkDirective "" [] [mkDirective "a++" [] [leaf "backend" ["127.0.0.1:9000"]]].

(** ** The loaders, whatever [domain2Regex] answers

    [parse] asks [domain2Regex] for a matcher or an error, and reads of the
    error only that it is not [nil]. The definitions below are the text of
    [parse], with the pass of its loop, and of [ReadFile] once more, for
    each loader, with [domain2Regex] as a parameter: what is proved of them
    holds for every compiler of expressions, whichever domains it refuses. *)

Definition parse_route_with (domain2Regex : string -> regexp.CompileResult)
  (directive : Directive) : outcome part_000.Route :=
  let route := part_000.mkRoute [] None None [] [] in
  domains <- range_loop (append_domain domain2Regex)
                        (strings.Split (Name directive) comma)
                        (part_000.Domains route) ;;
  route <- range_loop part_000.parse_case (Directives directive)
                      (part_000.set_Domains route domains) ;;
  Ok (part_000.default_deny route).

Definition parse_with (domain2Regex : string -> regexp.CompileResult)
  (c : part_000.Config) (root : Directive) : outcome part_000.Config :=
  routes <- range_loop (fun routes directive =>
                          route <- parse_route_with domain2Regex directive ;;
                          Ok (routes ++ [route]))
                       (Directives root) (part_000.Routes c) ;;
  Ok (part_000.mkConfig routes).

Definition ReadFile_with (domain2Regex : string -> regexp.CompileResult)
  (env : Env) (c : part_000.Config) (file : string)
  : outcome (part_000.Config * option error) :=
  match os_Open env file with
  | inr err => Ok (c, Some err)
  | inl f =>
      let l := newLexer env f in
      root <- parseDirective env l ;;
      c' <- parse_with domain2Regex c root ;;
      Ok (c', None)
  end.

Definition legacy_parse_route_with (domain2Regex : string -> regexp.CompileResult)
  (directive : Directive) : outcome config_go.Route :=
  let route := config_go.mkRoute [] EmptyString [] [] ProxyNone in
  domains <- range_loop (append_domain domain2Regex)
                        (strings.Split (Name directive) comma)
                        (config_go.Domains route) ;;
  route <- range_loop config_go.parse_case (Directives directive)
                      (config_go.set_Domains route domains) ;;
  Ok (config_go.default_deny route).

Definition legacy_parse_with (domain2Regex : string -> regexp.CompileResult)
  (c : config_go.Config) (root : Directive) : outcome config_go.Config :=
  routes <- range_loop (fun routes directive =>
                          route <- legacy_parse_route_with domain2Regex directive ;;
                          Ok (routes ++ [route]))
                       (Directives root) (config_go.Routes c) ;;
  Ok (config_go.mkConfig routes).

Definition legacy_ReadFile_with (domain2Regex : string -> regexp.CompileResult)
  (env : Env) (c : config_go.Config) (file : string)
  : outcome (config_go.Config * option error) :=
  match os_Open env file with
  | inr err => Ok (c, Some err)
  | inl f =>
      let l := newLexer env f in
      root <- parseDirective env l ;;
      c' <- legacy_parse_with domain2Regex c root ;;
      Ok (c', None)
  end.

(** The errors that the content of a configuration can hold for the loader
    of [part_000] when [domain2Regex] is [d2r]: the four kinds of
    [content_error], the first one with the domains that [d2r] refuses. *)
Definition content_error_with (d2r : string -> regexp.CompileResult)
  (root : Directive) : Prop :=
  (exists d dom e,
     In d (Directives root) /\ In dom (strings.Split (Name d) comma)
     /\ d2r dom = regexp.CompileError e)
  \/ (exists d dir sub,
        In d (Directives root) /\ In dir (Directives d)
        /\ In (Name dir) ["deny"; "allow"]
        /\ In sub (strings.Split (nth 0 (Args dir) "") comma)
        /\ net.ParseCIDR sub = None /\ net.ParseIP sub = None)
  \/ (exists d dir,
        In d (Directives root) /\ In dir (Directives d)
        /\ In (Name dir) route_keywords /\ length (Args dir) <> 1)
  \/ (exists d dir g,
        In d (Directives root) /\ In dir (Directives d)
        /\ In (Name dir) ["backend"; "acme"] /\ In g (Directives dir)
        /\ In (Name g) proxy_keywords /\ Args g <> []).

(** The same for the loader of [config.go]: a domain that [d2r] refuses, a
    [deny] or [allow] element that is neither a prefix nor an address, a
    [backend], [deny] or [allow] with the wrong count of arguments, a
    [send-proxy] or [send-proxy-v2] of the route block with an argument. *)
Definition legacy_content_error_with (d2r : string -> regexp.CompileResult)
  (root : Directive) : Prop :=
  (exists d dom e,
     In d (Directives root) /\ In dom (strings.Split (Name d) comma)
     /\ d2r dom = regexp.CompileError e)
  \/ (exists d dir sub,
        In d (Directives root) /\ In dir (Directives d)
        /\ In (Name dir) ["deny"; "allow"]
        /\ In sub (strings.Split (nth 0 (Args dir) "") comma)
        /\ net.ParseCIDR sub = None /\ net.ParseIP sub = None)
  \/ (exists d dir,
        In d (Directives root) /\ In dir (Directives d)
        /\ In (Name dir) legacy_route_keywords /\ length (Args dir) <> 1)
  \/ (exists d dir,
        In d (Directives root) /\ In dir (Directives d)
        /\ In (Name dir) proxy_keywords /\ Args dir <> []).

(** [d2r] answers, with a matcher or with an error, for every domain of the
    tree. Go's [regexp.Compile] always does; the model of [regexp] does on
    its fragment. *)
Definition answers_with (d2r : string -> regexp.CompileResult) (root : Directive)
  : Prop :=
  forall d dom, In d (Directives root) -> In dom (strings.Split (Name d) comma) ->
                d2r dom <> regexp.CompileBeyond.

(** A [domain2Regex] that answers for [a(b] and for [a[b] what Go's does, an
    error for the group and for the class that are left open, and for every
    other domain what the model of [part_000] answers. *)
Definition refuses_open_group (domain : string) : regexp.CompileResult :=
  if String.eqb domain "a(b" then regexp.CompileError regexp.ErrMissingParen
  else if String.eqb domain "a[b" then regexp.CompileError regexp.ErrMissingBracket
  else part_000.domain2Regex domain.

(** [a(b { backend 127.0.0.1:9000 }]: a group that is left open. *)
Definition open_group_root : Directive :=
  mkDirective "" [] [mkDirective "a(b" [] [leaf "backend" ["127.0.0.1:9000"]]].

(** [example.com { backend }]: a [backend] without its address. *)
Definition no_address_root : Directive :=
  mkDirective "" [] [mkDirective "example.com" [] [leaf "backend" []]].

(** ** Words for the further properties of the loaders *)

(** Is the name of a directive one of the names that a block knows? *)
Definition known (keywords : list string) (d : Directive) : bool :=
  existsb (String.eqb (Name d)) keywords.

(** The last directive of a block that has a given name. *)
Fixpoint last_named (name : string) (dirs : list Directive) : option Directive :=
  match dirs with
  | [] => None
  | d :: rest =>
      match last_named name rest with
      | Some x => Some x
      | None => if String.eqb (Name d) name then Some d else None
      end
  end.

(** The descriptor that a [backend] or [acme] directive stands for: its
    first argument, and the variant that the last [send-proxy] or
    [send-proxy-v2] of its block decides. *)
Definition backend_of (dir : Directive) : part_000.Backend :=
  part_000.mkBackend (nth 0 (Args dir) "") (last_variant (Directives dir) ProxyNone).

(** The backend that the last directive named [name] of a block stands for,
    or [before] when the block has none. *)
Definition last_backend (name : string) (dirs : list Directive)
  (before : option part_000.Backend) : option part_000.Backend :=
  match last_named name dirs with
  | Some dir => Some (backend_of dir)
  | None => before
  end.

(** A pattern without [*], and a text without a line feed. *)
Fixpoint no_star (p : string) : bool :=
  match p with
  | EmptyString => true
  | String c p' => negb (Ascii.eqb c "*") && no_star p'
  end.


(** [example.com { allow 10.0.0.0/8, }]: a trailing comma in a list of
    subnets. *)
Definition trailing_comma_allow : Directive := leaf "allow" ["10.0.0.0/8,"].

(** [example.com { bakend 127.0.0.1:9000; deny 10.1.0.0/16 }]: a misspelt
    directive. *)
Definition misspelt_route : Directive :=
  mkDirective "example.com" []
    [leaf "bakend" ["127.0.0.1:9000"]; leaf "deny" ["10.1.0.0/16"]].

(** [example.com { backend a:1; backend b:2 { send-proxy-v2 } }] *)
Definition two_backends_route : Directive :=
  mkDirective "example.com" []
    [leaf "backend" ["a:1"];
     mkDirective "backend" ["b:2"] [leaf "send-proxy-v2" []]].

(** [example.com { backend a:1 { send-proxy }; send-proxy-v2 }], for the
    loader of [config.go]. *)
Definition legacy_proxy_route : Directive :=
  mkDirective "example.com" []
    [mkDirective "backend" ["a:1"] [leaf "send-proxy" []]; leaf "send-proxy-v2" []].

(** The route of the allow and deny example. *)
Definition allow_deny_route : Directive :=
  mkDirective "example.com" []
    [leaf "backend" ["127.0.0.1:9000"];
     leaf "allow" ["10.0.0.0/8"];
     leaf "deny" ["10.1.0.0/16"]].

(** Cases on a name that is one of a list of known names. *)
Ltac name_cases H :=
  repeat (destruct H as [H|H]; [rewrite <- H in *; clear H|]); try destruct H.

(** Cases on every [match] of a hypothesis. *)
Ltac split_hyp H :=
  repeat match type of H with
         | context [match ?x with _ => _ end] => destruct x eqn:?; try discriminate H
         end.

(** * Host matchers *)

Section Translation.

Import regexp.

Lemma domain2Regex_loop_app (a b d : string) :
  domain2Regex_loop (a ++ b) d = (a ++ domain2Regex_loop b d)%string.
Proof.
  revert a b. induction d as [|c d IH]; intros a b; simpl.
  - reflexivity.
  - rewrite <- IH. f_equal. clear. induction a; simpl; congruence.
Qed.

Lemma domain2Regex_loop_cons (c : ascii) (d : string) :
  domain2Regex_loop "" (String c d) = (regex_piece c ++ domain2Regex_loop "" d)%string.
Proof.
  simpl. rewrite <- domain2Regex_loop_app. f_equal.
  induction (regex_piece c); simpl; congruence.
Qed.

Lemma flush_settled (st : pending) (re : Regexp) :
  settled st = true -> flush st (CompileOk re) = CompileOk (pend st ++ re).
Proof. destruct st as [| |[c|]|]; simpl; intros H; try reflexivity. discriminate. Qed.

Lemma literal_char_scan (c : ascii) (st : pending) (rest : string) :
  literal_char c = true ->
  scan st (String c rest) = flush st (scan (PAtom (Lit c)) rest).
Proof.
  unfold literal_char. intros H.
  repeat (apply andb_prop in H; destruct H as [H ?]).
  simpl.
  repeat match goal with
         | E : negb _ = true |- _ => apply negb_true_iff in E
         end.
  rewrite H. simpl.
  repeat match goal with
         | E : _ = false |- _ => rewrite E
         end.
  reflexivity.
Qed.

(** The scan of a translated pattern, up to the closing [$]. *)
Lemma scan_translation_anchored (p : string) :
  glob_pattern p = true ->
  forall st, settled st = true ->
  scan st (domain2Regex_loop "" p ++ "$") = CompileOk (pend st ++ glob_items p ++ [Eol]).
Proof.
  induction p as [|c p IH]; intros Hp st Hst.
  - simpl. destruct st as [| |[x|]|]; try discriminate; reflexivity.
  - simpl in Hp. apply andb_prop in Hp. destruct Hp as [Hc Hp].
    rewrite domain2Regex_loop_cons. unfold regex_piece.
    cbn [glob_items].
    destruct (Ascii.eqb c "*") eqn:Estar.
    + simpl. rewrite (IH Hp PRep eq_refl). simpl.
      apply flush_settled; assumption.
    + destruct (Ascii.eqb c ".") eqn:Edot.
      * apply Ascii.eqb_eq in Edot. subst c. simpl.
        rewrite (IH Hp (PAtom (Lit ".")) eq_refl). simpl.
        apply flush_settled; assumption.
      * simpl in Hc. cbn [String.append].
        rewrite (literal_char_scan c st _ Hc).
        rewrite (IH Hp (PAtom (Lit c)) eq_refl). simpl.
        apply flush_settled; assumption.
Qed.

(** The same without the anchors, for the loader of [config.go]. *)
Lemma scan_translation_bare (p : string) :
  glob_pattern p = true ->
  forall st, settled st = true ->
  scan st (domain2Regex_loop "" p) = CompileOk (pend st ++ glob_items p).
Proof.
  induction p as [|c p IH]; intros Hp st Hst.
  - simpl. rewrite app_nil_r. destruct st as [| |[x|]|]; try discriminate; reflexivity.
  - simpl in Hp. apply andb_prop in Hp. destruct Hp as [Hc Hp].
    rewrite domain2Regex_loop_cons. unfold regex_piece.
    cbn [glob_items].
    destruct (Ascii.eqb c "*") eqn:Estar.
    + simpl. rewrite (IH Hp PRep eq_refl). simpl.
      apply flush_settled; assumption.
    + destruct (Ascii.eqb c ".") eqn:Edot.
      * apply Ascii.eqb_eq in Edot. subst c. simpl.
        rewrite (IH Hp (PAtom (Lit ".")) eq_refl). simpl.
        apply flush_settled; assumption.
      * simpl in Hc. cbn [String.append].
        rewrite (literal_char_scan c st _ Hc).
        rewrite (IH Hp (PAtom (Lit c)) eq_refl). simpl.
        apply flush_settled; assumption.
Qed.

Lemma domain2Regex_anchored (p : string) :
  glob_pattern p = true ->
  part_000.domain2Regex p = CompileOk (Bol :: glob_items p ++ [Eol]).
Proof.
  intros Hp. unfold part_000.domain2Regex, Compile.
  replace "^" with ("^" ++ "")%string by reflexivity.
  rewrite domain2Regex_loop_app. simpl.
  rewrite (scan_translation_anchored p Hp PAnchor eq_refl). reflexivity.
Qed.

Lemma domain2Regex_bare (p : string) :
  glob_pattern p = true ->
  config_go.domain2Regex p = CompileOk (glob_items p).
Proof.
  intros Hp. unfold config_go.domain2Regex, Compile.
  apply (scan_translation_bare p Hp PStart eq_refl).
Qed.

End Translation.

Section Matching.

Import regexp.

Lemma star_loop_glob_star (k : bool -> string -> bool) (g : string -> bool) :
  (forall b s, k b s = g s) ->
  forall b s, star_loop k AnyNotNL b s = glob_star g s.
Proof.
  intros Hk b s. revert b.
  induction s as [|x s IH]; intros b; simpl.
  - rewrite Hk. reflexivity.
  - rewrite Hk, IH. reflexivity.
Qed.

(** Between the anchors, the matcher items of a pattern read a host the way
    the anchored, byte-for-byte reading of the pattern does. *)
Lemma matchhere_glob_items (p : string) :
  forall b s, matchhere (glob_items p ++ [Eol]) b s = glob_exact p s.
Proof.
  unfold glob_exact.
  induction p as [|c p IH]; intros b s.
  - destruct s; reflexivity.
  - cbn [glob_items glob app].
    destruct (Ascii.eqb c "*") eqn:Estar.
    + cbn [matchhere]. apply star_loop_glob_star. exact IH.
    + cbn [matchhere]. destruct s as [|x s]; [reflexivity|].
      rewrite IH. reflexivity.
Qed.

Lemma search_Bol_later (re : Regexp) (s : string) :
  search (Bol :: re) false s = false.
Proof. induction s as [|x s IH]; simpl; [reflexivity | exact IH]. Qed.

Lemma MatchString_anchored (re : Regexp) (s : string) :
  MatchString (Bol :: re) s = matchhere re true s.
Proof.
  unfold MatchString. destruct s as [|x s]; simpl.
  - apply orb_false_r.
  - rewrite search_Bol_later. apply orb_false_r.
Qed.

Lemma glob_star_intro (g : string -> bool) (m : string) :
  g m = true -> glob_star g m = true.
Proof. intros H. destruct m; simpl; now rewrite H. Qed.

Lemma star_loop_prefix (k : bool -> string -> bool) (g : string -> bool) :
  (forall bot s, k bot s = true <-> exists m b, s = (m ++ b)%string /\ g m = true) ->
  forall bot s,
  star_loop k AnyNotNL bot s = true
  <-> exists m b, s = (m ++ b)%string /\ glob_star g m = true.
Proof.
  intros Hk bot s. split.
  - revert bot. induction s as [|x s IH]; intros bot H; simpl in H;
      apply orb_true_iff in H; destruct H as [H|H]; try discriminate.
    + apply Hk in H. destruct H as (m & b & E & Hg).
      exists m, b. split; [exact E|]. now apply glob_star_intro.
    + apply Hk in H. destruct H as (m & b & E & Hg).
      exists m, b. split; [exact E|]. now apply glob_star_intro.
    + apply andb_prop in H. destruct H as [Hx H].
      apply IH in H. destruct H as (m & b & -> & Hg).
      exists (String x m), b. split; [reflexivity|].
      simpl. simpl in Hx. rewrite Hx, Hg. apply orb_true_r.
  - intros (m & b & -> & Hg). revert bot.
    induction m as [|x m IH]; intros bot; simpl in Hg;
      apply orb_true_iff in Hg; destruct Hg as [Hg|Hg]; try discriminate.
    + assert (Hs : k bot ("" ++ b)%string = true) by (apply Hk; now exists "", b).
      simpl in Hs. destruct b; simpl; now rewrite Hs.
    + assert (Hs : k bot (String x m ++ b)%string = true)
        by (apply Hk; now exists (String x m), b).
      simpl in Hs. simpl. now rewrite Hs.
    + apply andb_prop in Hg. destruct Hg as [Hx Hg].
      simpl. rewrite (IH Hg false). simpl. rewrite Hx. apply orb_true_r.
Qed.

(** Without the anchors, the matcher items of a pattern read a prefix of the
    text. *)
Lemma matchhere_glob_prefix (p : string) :
  forall bot s,
  matchhere (glob_items p) bot s = true
  <-> exists m b, s = (m ++ b)%string /\ glob_exact p m = true.
Proof.
  unfold glob_exact.
  induction p as [|c p IH]; intros bot s.
  - simpl. split; [intros _; now exists "", s|reflexivity].
  - cbn [glob_items glob].
    destruct (Ascii.eqb c "*") eqn:Estar.
    + cbn [matchhere]. apply star_loop_prefix. exact IH.
    + cbn [matchhere]. split.
      * destruct s as [|x s]; [discriminate|]. intros H.
        apply andb_prop in H. destruct H as [Hx H].
        apply IH in H. destruct H as (m & b & -> & Hg).
        exists (String x m), b. split; [reflexivity|]. now rewrite Hx, Hg.
      * intros (m & b & -> & Hg). destruct m as [|x m]; [discriminate|].
        apply andb_prop in Hg. destruct Hg as [Hx Hg].
        simpl. rewrite Hx. simpl. apply IH. now exists m, b.
Qed.

(** So the matcher of [config.go] accepts a text that contains a match. *)
Lemma search_glob_items (p : string) :
  forall bot s,
  search (glob_items p) bot s = true
  <-> exists a m b, s = (a ++ m ++ b)%string /\ glob_exact p m = true.
Proof.
  intros bot s. revert bot. induction s as [|x s IH]; intros bot; simpl.
  - rewrite orb_false_r, matchhere_glob_prefix. split.
    + intros (m & b & E & Hg). now exists "", m, b.
    + intros (a & m & b & E & Hg). destruct a; [|discriminate].
      now exists m, b.
  - rewrite orb_true_iff, matchhere_glob_prefix, IH. split.
    + intros [(m & b & E & Hg)|(a & m & b & E & Hg)].
      * now exists "", m, b.
      * exists (String x a), m, b. split; [|exact Hg]. simpl. now rewrite E.
    + intros (a & m & b & E & Hg). destruct a as [|y a].
      * left. now exists m, b.
      * right. simpl in E. inversion E; subst. now exists a, m, b.
Qed.

End Matching.

(** C1 fails as it is worded, in three ways: the matcher compares byte for
    byte, so a pattern with a capital letter refuses the lower-case host that
    a case-insensitive reading accepts; a byte such as [+] is passed on to
    [regexp] and read as an operator, not as itself; and the matcher of
    [config.go] has no anchors, so it accepts a host that only contains a
    match. *)
Lemma C1_not_folded_not_literal :
  (spec_host_match "Example.com" "example.com" = true
   /\ accepts (part_000.domain2Regex "Example.com") "example.com" = false)
  /\ (spec_host_match "a+" "aa" = false
      /\ accepts (part_000.domain2Regex "a+") "aa" = true)
  /\ (spec_host_match "example.com" "xexample.comx" = false
      /\ accepts (config_go.domain2Regex "example.com") "xexample.comx" = true).
Proof. repeat split; vm_compute; reflexivity. Qed.

(** C1, amended: in the loader of [part_000], for every pattern [p] made of
    [*], [.] and ASCII bytes that [regexp] reads as literals, the host
    matcher compiles, and it accepts a host [s] exactly when [s] matches the
    anchored translation of [p] in which [*] is [.*] (any run of bytes other
    than a line feed) and every other byte stands for itself, compared byte
    for byte; so [*.example.com] accepts [a.example.com] and
    [x.y.example.com] and refuses [example.com]. The matcher that the loader
    of [config.go] builds for [p] accepts [s] exactly when some part of [s]
    matches that translation. *)
Theorem C1_anchored_host_matcher (p s : string) :
  glob_pattern p = true ->
  (exists re, part_000.domain2Regex p = regexp.CompileOk re
              /\ regexp.MatchString re s = glob_exact p s)
  /\ accepts (part_000.domain2Regex p) s = glob_exact p s
  /\ accepts (part_000.domain2Regex "*.example.com") "a.example.com" = true
  /\ accepts (part_000.domain2Regex "*.example.com") "x.y.example.com" = true
  /\ accepts (part_000.domain2Regex "*.example.com") "example.com" = false
  /\ (accepts (config_go.domain2Regex p) s = true
      <-> exists a m b, s = (a ++ m ++ b)%string /\ glob_exact p m = true).
Proof.
  intros Hp. pose proof (domain2Regex_anchored p Hp) as E.
  assert (M : regexp.MatchString (regexp.Bol :: glob_items p ++ [regexp.Eol]) s
              = glob_exact p s).
  { rewrite MatchString_anchored. apply matchhere_glob_items. }
  split; [|split; [|split; [|split; [|split]]]]; try (vm_compute; reflexivity).
  - eexists. split; [exact E | exact M].
  - unfold accepts. rewrite E. exact M.
  - unfold accepts. rewrite (domain2Regex_bare p Hp).
    apply search_glob_items.
Qed.

Lemma C1_anchored_host_matcher_witness :
  glob_pattern "*.example.com" = true
  /\ accepts (part_000.domain2Regex "*.example.com") "a.example.com"
     = glob_exact "*.example.com" "a.example.com".
Proof.
  split; [reflexivity|].
  exact (proj1 (proj2 (C1_anchored_host_matcher "*.example.com" "a.example.com"
                                                 eq_refl))).
Defined.

(** * Addresses and networks *)

Section NetFacts.

Import net.

Lemma byte_is_ok (n : Z) : byte_ok (byte n) = true.
Proof.
  unfold byte_ok, byte.
  pose proof (Z.mod_pos_bound n 256 eq_refl) as [H1 H2].
  apply andb_true_intro. split; [apply Z.leb_le | apply Z.ltb_lt]; assumption.
Qed.

Lemma update_length (l : list Z) (i : nat) (v : Z) : length (update l i v) = length l.
Proof.
  revert i. induction l as [|x l IH]; intros [|i]; simpl; try reflexivity.
  now rewrite IH.
Qed.

Lemma update_ok (l : list Z) (i : nat) (v : Z) :
  bytes_ok l = true -> byte_ok v = true -> bytes_ok (update l i v) = true.
Proof.
  unfold bytes_ok. revert i.
  induction l as [|x l IH]; intros [|i] Hl Hv; simpl in *; try reflexivity.
  - apply andb_prop in Hl. destruct Hl as [_ Hl]. now rewrite Hv, Hl.
  - apply andb_prop in Hl. destruct Hl as [Hx Hl]. rewrite Hx. simpl. now apply IH.
Qed.

Lemma nth_ok (l : list Z) (i : nat) : bytes_ok l = true -> byte_ok (nth i l 0%Z) = true.
Proof.
  unfold bytes_ok. revert i.
  induction l as [|x l IH]; intros [|i] Hl; simpl in *; try reflexivity.
  - apply andb_prop in Hl. tauto.
  - apply andb_prop in Hl. apply IH. tauto.
Qed.

Lemma update_wf16 (ip : IP) (i : nat) (v : Z) :
  wf16 ip -> byte_ok v = true -> wf16 (update ip i v).
Proof.
  intros [Hl Hok] Hv. split.
  - now rewrite update_length.
  - now apply update_ok.
Qed.

Lemma fold_update_wf16 (f : list Z -> nat -> list Z) (js : list nat) (ip : IP) :
  (forall l j, wf16 l -> wf16 (f l j)) -> wf16 ip -> wf16 (fold_left f js ip).
Proof.
  intros Hf. revert ip. induction js as [|j js IH]; intros ip Hip; simpl.
  - exact Hip.
  - apply IH. now apply Hf.
Qed.

Lemma expand_ellipsis_wf16 (ip : IP) (i e : nat) : wf16 ip -> wf16 (expand_ellipsis ip i e).
Proof.
  intros Hip. unfold expand_ellipsis.
  apply fold_update_wf16.
  - intros l j Hl. now apply update_wf16.
  - apply fold_update_wf16; [|exact Hip].
    intros l j Hl. apply update_wf16; [exact Hl|]. apply nth_ok. apply Hl.
Qed.


Lemma parseIPv4_loop_ok (todo : nat) :
  forall s p p' rest,
  parseIPv4_loop todo s p = Some (p', rest) -> bytes_ok p = true -> bytes_ok p' = true.
Proof.
  induction todo as [|todo IH]; intros s p p' rest H Hp.
  - simpl in H. now inversion H; subst.
  - cbn [parseIPv4_loop] in H. split_hyp H.
    apply IH in H; [exact H|].
    unfold bytes_ok in *. rewrite forallb_app, Hp. simpl.
    now rewrite byte_is_ok.
Qed.

Lemma parseIPv4_ok (s : string) (ip : IP) :
  parseIPv4 s = Some ip ->
  exists a b c d, ip = IPv4 a b c d /\ bytes_ok [a; b; c; d] = true.
Proof.
  unfold parseIPv4. intros H. split_hyp H. inversion H; subst; clear H.
  match goal with E : parseIPv4_loop _ _ _ = _ |- _ =>
    apply parseIPv4_loop_ok in E; [|reflexivity]; rename E into Hok end.
  do 4 eexists. split; [reflexivity|].
  cbn [bytes_ok forallb]. now rewrite !nth_ok.
Qed.

Lemma IPv4_wf16 (a b c d : Z) : bytes_ok [a; b; c; d] = true -> wf16 (IPv4 a b c d).
Proof. intros H. split; [reflexivity|]. exact H. Qed.

Lemma parseIPv4_wf16 (s : string) (ip : IP) : parseIPv4 s = Some ip -> wf16 ip.
Proof.
  intros H. apply parseIPv4_ok in H. destruct H as (a & b & c & d & -> & H).
  now apply IPv4_wf16.
Qed.

Lemma parseIPv6_loop_wf16 (todo : nat) :
  forall ip e s ip' i e' s',
  parseIPv6_loop todo ip e s = Some (ip', i, e', s') -> wf16 ip -> wf16 ip'.
Proof.
  induction todo as [|todo IH]; intros ip e s ip' i e' s' H Hip.
  - simpl in H. now inversion H; subst.
  - cbn [parseIPv6_loop] in H. split_hyp H;
      first [ apply IH in H; [exact H|] | inversion H; subst; clear H ];
      repeat apply update_wf16; try assumption; try apply byte_is_ok;
      try (apply nth_ok; eapply parseIPv4_wf16; eassumption).
Qed.

Lemma parseIPv6_wf16 (s : string) (ip : IP) : parseIPv6 s = Some ip -> wf16 ip.
Proof.
  unfold parseIPv6. intros H.
  assert (Z16 : wf16 (repeat 0%Z IPv6len)) by (split; reflexivity).
  split_hyp H; inversion H; subst; clear H; try exact Z16;
    match goal with E : parseIPv6_loop _ _ _ _ = _ |- _ =>
      apply parseIPv6_loop_wf16 in E; [|exact Z16] end;
    try assumption; now apply expand_ellipsis_wf16.
Qed.

Lemma ParseIP_scan_wf16 (s rest : string) (ip : IP) : ParseIP_scan s rest = Some ip -> wf16 ip.
Proof.
  induction rest as [|c rest IH]; simpl; intros H; [discriminate|].
  split_hyp H.
  - now apply parseIPv4_wf16 in H.
  - now apply parseIPv6_wf16 in H.
  - now apply IH.
Qed.

(** [ParseIP] answers sixteen bytes. *)
Lemma ParseIP_wf16 (s : string) (ip : IP) : ParseIP s = Some ip -> wf16 ip.
Proof. apply ParseIP_scan_wf16. Qed.


Lemma land_255 (b : Z) : byte_ok b = true -> Z.land b 255 = b.
Proof.
  unfold byte_ok. intros H. apply andb_prop in H. destruct H as [H1 H2].
  apply Z.leb_le in H1. apply Z.ltb_lt in H2.
  change 255%Z with (Z.ones 8). rewrite Z.land_ones by lia.
  apply Z.mod_small. change (2 ^ 8)%Z with 256%Z. lia.
Qed.

(** Under a mask of ones the loop of [Contains] compares the bytes themselves. *)
Lemma Contains_loop_ones (nn m x : list Z) :
  length nn = length x ->
  (forall i, i < length x -> nth i m 0%Z = 255%Z) ->
  bytes_ok nn = true -> bytes_ok x = true ->
  (Contains_loop nn m x (length x) = true <-> nn = x).
Proof.
  intros Hlen Hm Hnn Hx. unfold Contains_loop. rewrite forallb_forall. split.
  - intros H. apply (nth_ext _ _ 0%Z 0%Z Hlen). intros i Hi.
    rewrite Hlen in Hi. specialize (H i). rewrite in_seq in H.
    specialize (H (conj (Nat.le_0_l i) Hi)). apply Z.eqb_eq in H.
    rewrite (Hm i Hi) in H.
    rewrite (land_255 _ (nth_ok nn i Hnn)), (land_255 _ (nth_ok x i Hx)) in H.
    exact H.
  - intros -> i _. apply Z.eqb_refl.
Qed.

Lemma To4_Some (x y : IP) :
  To4 x = Some y ->
  (length x = 4 /\ y = x) \/ (x = v4InV6Prefix ++ y /\ length y = 4).
Proof.
  unfold To4. destruct (Nat.eqb (length x) IPv4len) eqn:E4.
  - intros H. inversion H; subst. left. apply Nat.eqb_eq in E4. now split.
  - destruct (Nat.eqb (length x) IPv6len) eqn:E16; [|discriminate].
    apply Nat.eqb_eq in E16.
    do 17 (destruct x as [|? x]; try discriminate E16).
    cbn -[Z.eqb]. intros H.
    repeat match type of H with
           | context [Z.eqb ?a ?b] => destruct (Z.eqb_spec a b); try discriminate H
           end.
    inversion H; subst. right. now split.
Qed.

Lemma To4_short (x : IP) : length x = 4 -> To4 x = Some x.
Proof. unfold To4. now intros ->. Qed.

Lemma To4_None_length (x : IP) : To4 x = None -> length x <> 4.
Proof. intros H E. rewrite (To4_short x E) in H. discriminate. Qed.

Lemma ones32 (i : nat) : i < 4 -> nth i (CIDRMask 32 32) 0%Z = 255%Z.
Proof. intros H. do 4 (destruct i as [|i]; [reflexivity|]). lia. Qed.

Lemma ones128 (i : nat) : i < 16 -> nth i (CIDRMask 128 128) 0%Z = 255%Z.
Proof. intros H. do 16 (destruct i as [|i]; [reflexivity|]). lia. Qed.

(** The network that [parseRange] builds for an address in IPv4 form holds
    that address, as four bytes or as sixteen, and nothing else. *)
Lemma Contains_host32 (ip v4 x : IP) :
  wf16 ip -> To4 ip = Some v4 -> bytes_ok x = true ->
  (Contains (mkIPNet ip (CIDRMask 32 32)) x = true <-> x = ip \/ x = v4).
Proof.
  intros [Hlen Hok] H4 Hx.
  destruct (To4_Some ip v4 H4) as [[E _]|[Eip Hv4]]; [lia|].
  assert (Hokv : bytes_ok v4 = true).
  { rewrite Eip in Hok. unfold bytes_ok in *. rewrite forallb_app in Hok.
    now apply andb_prop in Hok. }
  unfold Contains, networkNumberAndMask. cbn [ipnet_IP ipnet_Mask]. rewrite H4.
  change (length (CIDRMask 32 32)) with 4. rewrite Hv4. cbn [Nat.eqb IPv4len].
  split.
  - destruct (To4 x) as [y|] eqn:Ex.
    + rewrite Hv4. destruct (Nat.eqb (length y) 4) eqn:Ey; [|discriminate].
      apply Nat.eqb_eq in Ey. cbn [negb]. intros H.
      apply Contains_loop_ones in H;
        [|lia|intros i Hi; apply ones32; lia|exact Hokv|].
      * subst y. destruct (To4_Some x v4 Ex) as [[_ E]|[E _]]; subst; auto.
      * destruct (To4_Some x y Ex) as [[_ E]|[E _]]; subst; [exact Hx|].
        unfold bytes_ok in *. rewrite forallb_app in Hx. now apply andb_prop in Hx.
    + apply To4_None_length in Ex. rewrite Hv4.
      destruct (Nat.eqb (length x) 4) eqn:E; [apply Nat.eqb_eq in E; lia|discriminate].
  - intros [->| ->].
    + rewrite H4, Hv4. cbn [Nat.eqb negb]. rewrite <- Hv4.
      apply Contains_loop_ones; auto. intros i Hi. apply ones32. lia.
    + rewrite (To4_short v4 Hv4), Hv4. cbn [Nat.eqb negb]. rewrite <- Hv4.
      apply Contains_loop_ones; auto. intros i Hi. apply ones32. lia.
Qed.

(** The network that [parseRange] builds for any other address holds that
    address and nothing else. *)
Lemma Contains_host128 (ip x : IP) :
  wf16 ip -> To4 ip = None -> bytes_ok x = true ->
  (Contains (mkIPNet ip (CIDRMask 128 128)) x = true <-> x = ip).
Proof.
  intros [Hlen Hok] H4 Hx.
  unfold Contains, networkNumberAndMask. cbn [ipnet_IP ipnet_Mask]. rewrite H4.
  change (length (CIDRMask 128 128)) with 16. rewrite Hlen.
  cbn [Nat.eqb IPv4len IPv6len]. rewrite Hlen. cbn [Nat.eqb IPv4len IPv6len].
  split.
  - destruct (To4 x) as [y|] eqn:Ex.
    + assert (Hy : length y = 4).
      { destruct (To4_Some x y Ex) as [[E ->]|[_ E]]; exact E. }
      rewrite Hy, Hlen. discriminate.
    + rewrite Hlen. destruct (Nat.eqb (length x) 16) eqn:E; [|discriminate].
      apply Nat.eqb_eq in E. cbn [negb]. intros H.
      apply Contains_loop_ones in H; auto; [lia|].
      intros i Hi. apply ones128. lia.
  - intros ->. rewrite H4, Hlen. cbn [Nat.eqb negb]. rewrite <- Hlen.
    apply Contains_loop_ones; auto. intros i Hi. apply ones128. lia.
Qed.

End NetFacts.

(** * Loops that may be fatal *)

Lemma bind_Ok {A B : Type} (x : outcome A) (f : A -> outcome B) (b : B) :
  bind x f = Ok b -> exists a, x = Ok a /\ f a = Ok b.
Proof. destruct x as [a| |]; simpl; intros H; try discriminate. now exists a. Qed.

Section Loops.

Context {A B S : Type}.

(** A loop that appends one result per element succeeds exactly when every
    element does, and then it appends the results in order. *)
Lemma range_loop_append (f : A -> outcome B) (xs : list A) :
  forall acc out,
  range_loop (fun acc x => y <- f x ;; Ok (acc ++ [y])) xs acc = Ok out <->
  exists ys, Forall2 (fun x y => f x = Ok y) xs ys /\ out = acc ++ ys.
Proof.
  induction xs as [|x xs IH]; intros acc out; simpl.
  - split.
    + intros H. inversion H; subst. exists []. split; [constructor|]. now rewrite app_nil_r.
    + intros (ys & HF & ->). inversion HF; subst. now rewrite app_nil_r.
  - split.
    + intros H. destruct (f x) as [y| |] eqn:E; simpl in H; try discriminate.
      apply IH in H. destruct H as (ys & HF & ->).
      exists (y :: ys). split; [now constructor|]. now rewrite <- app_assoc.
    + intros (ys & HF & ->). inversion HF as [|x' y xs' ys' Hy HF']; subst.
      rewrite Hy. simpl. apply IH. exists ys'. split; [exact HF'|].
      now rewrite <- app_assoc.
Qed.

(** A loop that succeeds has run its body with success on every element. *)
Lemma range_loop_In (body : S -> A -> outcome S) (xs : list A) :
  forall acc out x,
  range_loop body xs acc = Ok out -> In x xs ->
  exists a a', body a x = Ok a'.
Proof.
  induction xs as [|x0 xs IH]; intros acc out x H Hin; [destruct Hin|].
  simpl in H. apply bind_Ok in H. destruct H as (acc' & E & H).
  destruct Hin as [->|Hin].
  - now exists acc, acc'.
  - now apply (IH acc' out).
Qed.

(** A loop is fatal or beyond the model only where its body is. *)
Lemma range_loop_total (body : S -> A -> outcome S) (xs : list A) :
  (forall a x, In x xs -> body a x <> Unmodelled) ->
  forall acc, range_loop body xs acc <> Unmodelled.
Proof.
  induction xs as [|x xs IH]; intros Hb acc; simpl; [discriminate|].
  destruct (body acc x) as [a'| |] eqn:E; simpl.
  - apply IH. intros a y Hy. apply Hb. now right.
  - discriminate.
  - exfalso. apply (Hb acc x); [now left | exact E].
Qed.

End Loops.

Lemma Forall2_length_eq {A B : Type} (R : A -> B -> Prop) (xs : list A) (ys : list B) :
  Forall2 R xs ys -> length xs = length ys.
Proof. induction 1; simpl; congruence. Qed.

Lemma Split_not_nil (s : string) (sep : ascii) : strings.Split s sep <> [].
Proof.
  destruct s as [|c s]; simpl; [discriminate|].
  destruct (Ascii.eqb c sep); [discriminate|].
  destruct (strings.Split s sep); discriminate.
Qed.

Lemma bind_total {A B : Type} (x : outcome A) (f : A -> outcome B) :
  x <> Unmodelled -> (forall a, x = Ok a -> f a <> Unmodelled) -> bind x f <> Unmodelled.
Proof.
  destruct x as [a| |]; simpl; intros Hx Hf;
    [now apply Hf | discriminate | now exfalso; apply Hx].
Qed.

Lemma Forall2_In_l {A B : Type} (R : A -> B -> Prop) (xs : list A) (ys : list B) (x : A) :
  Forall2 R xs ys -> In x xs -> exists y, In y ys /\ R x y.
Proof.
  induction 1 as [|x0 y0 xs ys Hxy HF IH]; intros Hin; [destruct Hin|].
  destruct Hin as [->|Hin].
  - exists y0. split; [now left | exact Hxy].
  - destruct (IH Hin) as (y & Hy & HR). exists y. split; [now right | exact HR].
Qed.

(** * The text shared by the two loaders *)

Lemma compile_domain_Ok (d2r : string -> regexp.CompileResult) (dom : string)
  (re : regexp.Regexp) :
  compile_domain d2r dom = Ok re <-> d2r dom = regexp.CompileOk re.
Proof.
  unfold compile_domain. destruct (d2r dom); split; intros H;
    try discriminate; inversion H; subst; reflexivity.
Qed.

Lemma domains_loop (d2r : string -> regexp.CompileResult) (doms : list string)
  (out : list regexp.Regexp) :
  range_loop (append_domain d2r) doms [] = Ok out <->
  Forall2 (fun dom re => d2r dom = regexp.CompileOk re) doms out.
Proof.
  unfold append_domain. rewrite range_loop_append. split.
  - intros (ys & HF & ->). simpl.
    eapply Forall2_impl; [|exact HF]. intros a b. apply compile_domain_Ok.
  - intros HF. exists out. split; [|reflexivity].
    eapply Forall2_impl; [|exact HF]. intros a b. apply compile_domain_Ok.
Qed.

Lemma append_ranges_Ok (l : list net.IPNet) (arg : string) (out : list net.IPNet) :
  append_ranges l arg = Ok out <->
  exists ns, Forall2 (fun s n => parseRange s = Ok n) (strings.Split arg comma) ns
             /\ out = l ++ ns.
Proof. unfold append_ranges. apply range_loop_append. Qed.

Lemma parseRange_total (s : string) : parseRange s <> Unmodelled.
Proof.
  unfold parseRange.
  destruct (net.ParseCIDR s) as [[? ?]|]; [discriminate|].
  destruct (net.ParseIP s) as [ip|]; [|discriminate].
  destruct (net.To4 ip); discriminate.
Qed.

Lemma append_ranges_total (l : list net.IPNet) (arg : string) :
  append_ranges l arg <> Unmodelled.
Proof.
  unfold append_ranges. apply range_loop_total. intros a x _.
  apply bind_total; [apply parseRange_total | discriminate].
Qed.

Lemma declared_cons (name : string) (d : Directive) (rest : list Directive) :
  declared name (d :: rest) = declared name [d] ++ declared name rest.
Proof. simpl. destruct (String.eqb (Name d) name); [|reflexivity]. now rewrite app_nil_r. Qed.

Lemma all4_all6 :
  all4 = net.mkIPNet [0; 0; 0; 0]%Z [0; 0; 0; 0]%Z
  /\ all6 = net.mkIPNet (repeat 0%Z 16) (repeat 0%Z 16).
Proof. split; reflexivity. Qed.

(** * Route blocks *)

Section RouteLoop.

(** The route type of a loader, its three fields that the two loaders share,
    and the body of its loop over the children of a route block. *)
Variable R : Type.
Variable doms : R -> list regexp.Regexp.
Variable deny allow : R -> list net.IPNet.
Variable step : R -> Directive -> outcome R.

Hypothesis step_fields :
  forall r r1 d, step r d = Ok r1 -> fields_after doms deny allow [d] r r1.

(** What the loop over the children of a route block does to the route. *)
Lemma route_loop_fields (dirs : list Directive) :
  forall r r', range_loop step dirs r = Ok r' -> fields_after doms deny allow dirs r r'.
Proof.
  unfold fields_after.
  induction dirs as [|d dirs IH]; intros r r' H.
  - simpl in H. inversion H; subst.
    split; [reflexivity|]. split; exists []; rewrite app_nil_r; split; constructor.
  - simpl in H. apply bind_Ok in H. destruct H as (r1 & H1 & H).
    apply step_fields in H1.
    destruct H1 as (Hd1 & (dl1 & HF1 & Hdeny1) & (al1 & HA1 & Hallow1)).
    apply IH in H.
    destruct H as (Hd & (dl & HF & Hdeny) & (al & HA & Hallow)).
    split; [congruence|]. split.
    + exists (dl1 ++ dl). rewrite (declared_cons "deny"). split.
      * now apply Forall2_app.
      * rewrite Hdeny, Hdeny1. now rewrite app_assoc.
    + exists (al1 ++ al). rewrite (declared_cons "allow"). split.
      * now apply Forall2_app.
      * rewrite Hallow, Hallow1. now rewrite app_assoc.
Qed.

End RouteLoop.

(** * The loader of [part_000] *)

Section Part000.

Import part_000.

Lemma parse_routes (c : Config) (root : Directive) (c' : Config) :
  parse c root = Ok c' <->
  exists routes, Forall2 (fun d r => parse_route d = Ok r) (Directives root) routes
                 /\ c' = mkConfig (Routes c ++ routes).
Proof.
  unfold parse. split.
  - intros H. apply bind_Ok in H. destruct H as (routes & H & E).
    apply range_loop_append in H. destruct H as (ys & HF & ->).
    exists ys. split; [exact HF|]. now inversion E.
  - intros (routes & HF & ->).
    assert (H : range_loop (fun routes directive =>
                              route <- parse_route directive ;; Ok (routes ++ [route]))
                           (Directives root) (Routes c) = Ok (Routes c ++ routes)).
    { apply range_loop_append. now exists routes. }
    now rewrite H.
Qed.

Lemma parse_route_inv (d : Directive) (r : Route) :
  parse_route d = Ok r ->
  exists domains r1,
    Forall2 (fun dom re => domain2Regex dom = regexp.CompileOk re)
            (strings.Split (Name d) comma) domains
    /\ range_loop parse_case (Directives d) (mkRoute domains None None [] []) = Ok r1
    /\ r = default_deny r1.
Proof.
  unfold parse_route. intros H.
  apply bind_Ok in H. destruct H as (domains & Hd & H).
  apply bind_Ok in H. destruct H as (r1 & Hc & H).
  exists domains, r1. split; [|split].
  - now apply domains_loop.
  - exact Hc.
  - now inversion H.
Qed.

Lemma parseBackend_case_total (b : Backend) (d : Directive) :
  parseBackend_case b d <> Unmodelled.
Proof.
  unfold parseBackend_case.
  repeat match goal with |- context [if ?x then _ else _] => destruct x end; discriminate.
Qed.

Lemma parseBackend_total (d : Directive) : parseBackend d <> Unmodelled.
Proof.
  unfold parseBackend. apply range_loop_total. intros. apply parseBackend_case_total.
Qed.

Lemma parse_case_total (r : Route) (d : Directive) : parse_case r d <> Unmodelled.
Proof.
  unfold parse_case.
  repeat match goal with |- context [if ?x then _ else _] => destruct x end;
    try discriminate;
    (apply bind_total; [|discriminate]);
    first [apply parseBackend_total | apply append_ranges_total].
Qed.

(** What one child directive of a route block does to the route. *)
Lemma parse_case_fields (r r1 : Route) (d : Directive) :
  parse_case r d = Ok r1 ->
  Domains r1 = Domains r
  /\ (exists dl, Forall2 (fun s n => parseRange s = Ok n) (declared "deny" [d]) dl
                 /\ Deny r1 = Deny r ++ dl)
  /\ (exists al, Forall2 (fun s n => parseRange s = Ok n) (declared "allow" [d]) al
                 /\ Allow r1 = Allow r ++ al).
Proof.
  unfold parse_case. cbn [declared].
  destruct (String.eqb (Name d) "backend") eqn:Eb.
  { apply String.eqb_eq in Eb. rewrite Eb. cbn [String.eqb Ascii.eqb Bool.eqb].
    destruct (negb _); [discriminate|]. intros H. apply bind_Ok in H.
    destruct H as (b & _ & H). inversion H; subst; clear H. cbn.
    split; [reflexivity|]. split; exists []; rewrite app_nil_r; split; constructor. }
  destruct (String.eqb (Name d) "acme") eqn:Ea.
  { apply String.eqb_eq in Ea. rewrite Ea. cbn [String.eqb Ascii.eqb Bool.eqb].
    destruct (negb _); [discriminate|]. intros H. apply bind_Ok in H.
    destruct H as (b & _ & H). inversion H; subst; clear H. cbn.
    split; [reflexivity|]. split; exists []; rewrite app_nil_r; split; constructor. }
  destruct (String.eqb (Name d) "deny") eqn:Ed.
  { apply String.eqb_eq in Ed. rewrite Ed. cbn [String.eqb Ascii.eqb Bool.eqb].
    destruct (negb _); [discriminate|]. intros H. apply bind_Ok in H.
    destruct H as (l & Hl & H). inversion H; subst; clear H. cbn.
    apply append_ranges_Ok in Hl. destruct Hl as (ns & HF & ->).
    split; [reflexivity|]. split.
    - exists ns. rewrite app_nil_r. now split.
    - exists []. rewrite app_nil_r. split; constructor. }
  destruct (String.eqb (Name d) "allow") eqn:El.
  { destruct (negb _); [discriminate|]. intros H. apply bind_Ok in H.
    destruct H as (l & Hl & H). inversion H; subst; clear H. cbn.
    apply append_ranges_Ok in Hl. destruct Hl as (ns & HF & ->).
    split; [reflexivity|]. split.
    - exists []. rewrite app_nil_r. split; constructor.
    - exists ns. rewrite app_nil_r. now split. }
  intros H. inversion H; subst; clear H.
  split; [reflexivity|]. split; exists []; rewrite app_nil_r; split; constructor.
Qed.

Lemma children_fields (dirs : list Directive) (r r' : Route) :
  range_loop parse_case dirs r = Ok r' ->
  Domains r' = Domains r
  /\ (exists dl, Forall2 (fun s n => parseRange s = Ok n) (declared "deny" dirs) dl
                 /\ Deny r' = Deny r ++ dl)
  /\ (exists al, Forall2 (fun s n => parseRange s = Ok n) (declared "allow" dirs) al
                 /\ Allow r' = Allow r ++ al).
Proof. apply route_loop_fields. apply parse_case_fields. Qed.

End Part000.

(** * The loader of [config.go] *)

Section ConfigGo.

Import config_go.

Lemma legacy_parse_routes (c : Config) (root : Directive) (c' : Config) :
  parse c root = Ok c' <->
  exists routes, Forall2 (fun d r => parse_route d = Ok r) (Directives root) routes
                 /\ c' = mkConfig (Routes c ++ routes).
Proof.
  unfold parse. split.
  - intros H. apply bind_Ok in H. destruct H as (routes & H & E).
    apply range_loop_append in H. destruct H as (ys & HF & ->).
    exists ys. split; [exact HF|]. now inversion E.
  - intros (routes & HF & ->).
    assert (H : range_loop (fun routes directive =>
                              route <- parse_route directive ;; Ok (routes ++ [route]))
                           (Directives root) (Routes c) = Ok (Routes c ++ routes)).
    { apply range_loop_append. now exists routes. }
    now rewrite H.
Qed.

Lemma legacy_parse_route_inv (d : Directive) (r : Route) :
  parse_route d = Ok r ->
  exists domains r1,
    Forall2 (fun dom re => domain2Regex dom = regexp.CompileOk re)
            (strings.Split (Name d) comma) domains
    /\ range_loop parse_case (Directives d) (mkRoute domains "" [] [] ProxyNone) = Ok r1
    /\ r = default_deny r1.
Proof.
  unfold parse_route. intros H.
  apply bind_Ok in H. destruct H as (domains & Hd & H).
  apply bind_Ok in H. destruct H as (r1 & Hc & H).
  exists domains, r1. split; [|split].
  - now apply domains_loop.
  - exact Hc.
  - now inversion H.
Qed.

Lemma legacy_parse_case_total (r : Route) (d : Directive) : parse_case r d <> Unmodelled.
Proof.
  unfold parse_case.
  repeat match goal with |- context [if ?x then _ else _] => destruct x end;
    try discriminate;
    (apply bind_total; [|discriminate]); apply append_ranges_total.
Qed.

Lemma legacy_parse_case_fields (r r1 : Route) (d : Directive) :
  parse_case r d = Ok r1 ->
  Domains r1 = Domains r
  /\ (exists dl, Forall2 (fun s n => parseRange s = Ok n) (declared "deny" [d]) dl
                 /\ Deny r1 = Deny r ++ dl)
  /\ (exists al, Forall2 (fun s n => parseRange s = Ok n) (declared "allow" [d]) al
                 /\ Allow r1 = Allow r ++ al).
Proof.
  unfold parse_case. cbn [declared].
  destruct (String.eqb (Name d) "backend") eqn:Eb.
  { apply String.eqb_eq in Eb. rewrite Eb. cbn [String.eqb Ascii.eqb Bool.eqb].
    destruct (negb _); [discriminate|]. intros H. inversion H; subst; clear H. cbn.
    split; [reflexivity|]. split; exists []; rewrite app_nil_r; split; constructor. }
  destruct (String.eqb (Name d) "deny") eqn:Ed.
  { apply String.eqb_eq in Ed. rewrite Ed. cbn [String.eqb Ascii.eqb Bool.eqb].
    destruct (negb _); [discriminate|]. intros H. apply bind_Ok in H.
    destruct H as (l & Hl & H). inversion H; subst; clear H. cbn.
    apply append_ranges_Ok in Hl. destruct Hl as (ns & HF & ->).
    split; [reflexivity|]. split.
    - exists ns. rewrite app_nil_r. now split.
    - exists []. rewrite app_nil_r. split; constructor. }
  destruct (String.eqb (Name d) "allow") eqn:El.
  { destruct (negb _); [discriminate|]. intros H. apply bind_Ok in H.
    destruct H as (l & Hl & H). inversion H; subst; clear H. cbn.
    apply append_ranges_Ok in Hl. destruct Hl as (ns & HF & ->).
    split; [reflexivity|]. split.
    - exists []. rewrite app_nil_r. split; constructor.
    - exists ns. rewrite app_nil_r. now split. }
  repeat match goal with
         | |- context [if ?x then _ else _] => destruct x; try discriminate
         end;
    intros H; inversion H; subst; clear H; cbn;
    (split; [reflexivity|]; split; exists []; rewrite app_nil_r; split; constructor).
Qed.

Lemma legacy_children_fields (dirs : list Directive) (r r' : Route) :
  range_loop parse_case dirs r = Ok r' ->
  Domains r' = Domains r
  /\ (exists dl, Forall2 (fun s n => parseRange s = Ok n) (declared "deny" dirs) dl
                 /\ Deny r' = Deny r ++ dl)
  /\ (exists al, Forall2 (fun s n => parseRange s = Ok n) (declared "allow" dirs) al
                 /\ Allow r' = Allow r ++ al).
Proof. apply route_loop_fields. apply legacy_parse_case_fields. Qed.

End ConfigGo.

(** * Routes, domains and the default deny *)

Lemma Forall2_domains_not_nil {B : Type} (R : string -> B -> Prop) (s : string)
  (ys : list B) :
  Forall2 R (strings.Split s comma) ys -> ys <> [].
Proof.
  intros HF E. subst ys. inversion HF as [E|]. now apply (Split_not_nil s comma).
Qed.

Lemma route_built (d : Directive) (r : part_000.Route) :
  part_000.parse_route d = Ok r ->
  Forall2 (fun dom re => part_000.domain2Regex dom = regexp.CompileOk re)
          (strings.Split (Name d) comma) (part_000.Domains r)
  /\ deny_rule (Directives d) (part_000.Deny r) (part_000.Allow r).
Proof.
  intros H. apply parse_route_inv in H. destruct H as (domains & r1 & HD & HC & ->).
  apply children_fields in HC. cbn in HC.
  destruct HC as (Hdom & (dl & HF & Hdeny) & (al & HA & Hallow)).
  unfold part_000.default_deny. rewrite Hallow, Hdeny.
  destruct al as [|a al]; cbn.
  - rewrite Hdom, Hdeny, Hallow. split; [exact HD|]. now exists dl.
  - rewrite Hdom, Hallow. split; [exact HD|]. exists dl. split; [exact HF|].
    now rewrite <- app_assoc.
Qed.

Lemma legacy_route_built (d : Directive) (r : config_go.Route) :
  config_go.parse_route d = Ok r ->
  Forall2 (fun dom re => config_go.domain2Regex dom = regexp.CompileOk re)
          (strings.Split (Name d) comma) (config_go.Domains r)
  /\ deny_rule (Directives d) (config_go.Deny r) (config_go.Allow r).
Proof.
  intros H. apply legacy_parse_route_inv in H.
  destruct H as (domains & r1 & HD & HC & ->).
  apply legacy_children_fields in HC. cbn in HC.
  destruct HC as (Hdom & (dl & HF & Hdeny) & (al & HA & Hallow)).
  unfold config_go.default_deny. rewrite Hallow, Hdeny.
  destruct al as [|a al]; cbn.
  - rewrite Hdom, Hdeny, Hallow. split; [exact HD|]. now exists dl.
  - rewrite Hdom, Hallow. split; [exact HD|]. exists dl. split; [exact HF|].
    now rewrite <- app_assoc.
Qed.

(** C2: after the load, in both loaders, the routes appended to the
    configuration answer the directives of the root one for one, and the
    [Deny] list of each is the list of the prefixes that its [deny]
    directives declare, followed by [0.0.0.0/0] and [::/0] exactly when its
    [Allow] list is not empty. *)
Theorem C2_default_deny :
  (all4 = net.mkIPNet [0; 0; 0; 0]%Z [0; 0; 0; 0]%Z
   /\ all6 = net.mkIPNet (repeat 0%Z 16) (repeat 0%Z 16))
  /\ (forall c root c',
        part_000.parse c root = Ok c' ->
        exists routes,
          part_000.Routes c' = part_000.Routes c ++ routes
          /\ Forall2 (fun d r => deny_rule (Directives d) (part_000.Deny r)
                                           (part_000.Allow r))
                     (Directives root) routes)
  /\ (forall c root c',
        config_go.parse c root = Ok c' ->
        exists routes,
          config_go.Routes c' = config_go.Routes c ++ routes
          /\ Forall2 (fun d r => deny_rule (Directives d) (config_go.Deny r)
                                           (config_go.Allow r))
                     (Directives root) routes).
Proof.
  split; [exact all4_all6|]. split.
  - intros c root c' H. apply parse_routes in H. destruct H as (routes & HF & ->).
    exists routes. split; [reflexivity|].
    eapply Forall2_impl; [|exact HF]. intros d r Hr. now apply route_built in Hr.
  - intros c root c' H. apply legacy_parse_routes in H.
    destruct H as (routes & HF & ->).
    exists routes. split; [reflexivity|].
    eapply Forall2_impl; [|exact HF]. intros d r Hr. now apply legacy_route_built in Hr.
Qed.

Lemma C2_default_deny_witness :
  map part_000.Deny
      (part_000.Routes (loaded (part_000.mkConfig [])
                               (part_000.parse (part_000.mkConfig []) allow_deny_root)))
  = [[net.mkIPNet [10; 1; 0; 0]%Z [255; 255; 0; 0]%Z; all4; all6]]
  /\ exists routes,
      part_000.Routes (loaded (part_000.mkConfig [])
                              (part_000.parse (part_000.mkConfig []) allow_deny_root))
      = part_000.Routes (part_000.mkConfig []) ++ routes
      /\ Forall2 (fun d r => deny_rule (Directives d) (part_000.Deny r)
                                       (part_000.Allow r))
                 (Directives allow_deny_root) routes.
Proof.
  split; [vm_compute; reflexivity|].
  apply (proj1 (proj2 C2_default_deny) (part_000.mkConfig []) allow_deny_root).
  vm_compute. reflexivity.
Defined.

(** C7: a load that succeeds appends one route for each directive of the
    root, in the order of the directives, and the [Domains] of each route
    are the compiled matchers of the comma-separated elements of the name of
    its directive, one for one and in order; there is at least one. *)
Theorem C7_routes_and_domains :
  (forall c root c',
     part_000.parse c root = Ok c' ->
     exists routes,
       part_000.Routes c' = part_000.Routes c ++ routes
       /\ length routes = length (Directives root)
       /\ Forall2 (fun d r =>
                     Forall2 (fun dom re =>
                                part_000.domain2Regex dom = regexp.CompileOk re)
                             (strings.Split (Name d) comma) (part_000.Domains r)
                     /\ part_000.Domains r <> [])
                  (Directives root) routes)
  /\ (forall c root c',
        config_go.parse c root = Ok c' ->
        exists routes,
          config_go.Routes c' = config_go.Routes c ++ routes
          /\ length routes = length (Directives root)
          /\ Forall2 (fun d r =>
                        Forall2 (fun dom re =>
                                   config_go.domain2Regex dom = regexp.CompileOk re)
                                (strings.Split (Name d) comma) (config_go.Domains r)
                        /\ config_go.Domains r <> [])
                     (Directives root) routes).
Proof.
  split.
  - intros c root c' H. apply parse_routes in H. destruct H as (routes & HF & ->).
    exists routes. split; [reflexivity|]. split.
    + symmetry. eapply Forall2_length_eq. exact HF.
    + eapply Forall2_impl; [|exact HF]. intros d r Hr.
      apply route_built in Hr. destruct Hr as [HD _].
      split; [exact HD|]. eapply Forall2_domains_not_nil. exact HD.
  - intros c root c' H. apply legacy_parse_routes in H.
    destruct H as (routes & HF & ->).
    exists routes. split; [reflexivity|]. split.
    + symmetry. eapply Forall2_length_eq. exact HF.
    + eapply Forall2_impl; [|exact HF]. intros d r Hr.
      apply legacy_route_built in Hr. destruct Hr as [HD _].
      split; [exact HD|]. eapply Forall2_domains_not_nil. exact HD.
Qed.

Lemma C7_routes_and_domains_witness :
  map (fun r => length (part_000.Domains r))
      (part_000.Routes (loaded (part_000.mkConfig [])
                               (part_000.parse (part_000.mkConfig []) two_routes_root)))
  = [2; 1]
  /\ exists routes,
      part_000.Routes (loaded (part_000.mkConfig [])
                              (part_000.parse (part_000.mkConfig []) two_routes_root))
      = part_000.Routes (part_000.mkConfig []) ++ routes
      /\ length routes = length (Directives two_routes_root)
      /\ Forall2 (fun d r =>
                    Forall2 (fun dom re =>
                               part_000.domain2Regex dom = regexp.CompileOk re)
                            (strings.Split (Name d) comma) (part_000.Domains r)
                    /\ part_000.Domains r <> [])
                 (Directives two_routes_root) routes.
Proof.
  split; [vm_compute; reflexivity|].
  apply (proj1 C7_routes_and_domains (part_000.mkConfig []) two_routes_root).
  vm_compute. reflexivity.
Defined.

(** * Backends and the PROXY variant *)

Lemma has_name_cons (name : string) (d : Directive) (rest : list Directive) :
  has_name name (d :: rest) = String.eqb (Name d) name || has_name name rest.
Proof. reflexivity. Qed.

Lemma last_variant_neither (dirs : list Directive) (v : N) :
  has_name "send-proxy" dirs = false -> has_name "send-proxy-v2" dirs = false ->
  last_variant dirs v = v.
Proof.
  induction dirs as [|d dirs IH]; intros H1 H2; [reflexivity|].
  rewrite has_name_cons in H1, H2.
  apply orb_false_elim in H1, H2. destruct H1 as [E1 H1], H2 as [E2 H2].
  simpl. rewrite E1, E2. now apply IH.
Qed.

Lemma last_variant_v1 (dirs : list Directive) (v : N) :
  has_name "send-proxy" dirs = true -> has_name "send-proxy-v2" dirs = false ->
  last_variant dirs v = ProxyV1.
Proof.
  revert v. induction dirs as [|d dirs IH]; intros v H1 H2; [discriminate|].
  rewrite has_name_cons in H1, H2.
  apply orb_false_elim in H2. destruct H2 as [E2 H2].
  simpl. rewrite E2.
  destruct (String.eqb (Name d) "send-proxy") eqn:E1.
  - destruct (has_name "send-proxy" dirs) eqn:Hd.
    + now apply IH.
    + now apply last_variant_neither.
  - simpl in H1. now apply IH.
Qed.

Lemma last_variant_v2 (dirs : list Directive) (v : N) :
  has_name "send-proxy-v2" dirs = true -> has_name "send-proxy" dirs = false ->
  last_variant dirs v = ProxyV2.
Proof.
  revert v. induction dirs as [|d dirs IH]; intros v H2 H1; [discriminate|].
  rewrite has_name_cons in H1, H2.
  apply orb_false_elim in H1. destruct H1 as [E1 H1].
  simpl. rewrite E1.
  destruct (String.eqb (Name d) "send-proxy-v2") eqn:E2.
  - destruct (has_name "send-proxy-v2" dirs) eqn:Hd.
    + now apply IH.
    + now apply last_variant_neither.
  - simpl in H2. now apply IH.
Qed.

Lemma last_variant_range (dirs : list Directive) (v : N) :
  In (last_variant dirs v) [v; ProxyV1; ProxyV2].
Proof.
  revert v. induction dirs as [|d dirs IH]; intros v; simpl; [now left|].
  destruct (String.eqb (Name d) "send-proxy").
  - destruct (IH ProxyV1) as [E|[E|[E|[]]]]; rewrite <- E; auto.
  - destruct (String.eqb (Name d) "send-proxy-v2").
    + destruct (IH ProxyV2) as [E|[E|[E|[]]]]; rewrite <- E; auto.
    + apply IH.
Qed.

(** The loop of [parseBackend] keeps the address, and the last [send-proxy]
    or [send-proxy-v2] it meets decides the variant. *)
Lemma parseBackend_loop (dirs : list Directive) :
  forall b out,
  range_loop part_000.parseBackend_case dirs b = Ok out ->
  out = part_000.mkBackend (part_000.Address b)
                           (last_variant dirs (part_000.SendProxy b)).
Proof.
  induction dirs as [|d dirs IH]; intros b out H.
  - simpl in H. inversion H; subst. now destruct out.
  - simpl in H. apply bind_Ok in H. destruct H as (b1 & H1 & H).
    apply IH in H. subst out. unfold part_000.parseBackend_case in H1. simpl.
    destruct (String.eqb (Name d) "send-proxy").
    { destruct (Nat.ltb 0 (length (Args d))); [discriminate|]. now inversion H1. }
    destruct (String.eqb (Name d) "send-proxy-v2").
    { destruct (Nat.ltb 0 (length (Args d))); [discriminate|]. now inversion H1. }
    now inversion H1.
Qed.

Lemma parseBackend_loop_fatal (dirs : list Directive) :
  forall b m,
  range_loop part_000.parseBackend_case dirs b = Fatal m ->
  m = Msg "Invalid send-proxy directive"
  /\ exists d, In d dirs
               /\ (Name d = "send-proxy" \/ Name d = "send-proxy-v2")
               /\ Args d <> [].
Proof.
  induction dirs as [|d dirs IH]; intros b m H; [discriminate|].
  simpl in H. unfold part_000.parseBackend_case in H.
  assert (Hargs : Nat.ltb 0 (length (Args d)) = true -> Args d <> []).
  { intros E Hnil. rewrite Hnil in E. discriminate. }
  destruct (String.eqb (Name d) "send-proxy") eqn:E1.
  { destruct (Nat.ltb 0 (length (Args d))) eqn:El; simpl in H.
    - inversion H; subst. split; [reflexivity|]. exists d.
      apply String.eqb_eq in E1. split; [now left|]. split; [now left|]. now apply Hargs.
    - apply IH in H. destruct H as (-> & d' & Hin & Hn & Ha).
      split; [reflexivity|]. exists d'. split; [now right|]. now split. }
  destruct (String.eqb (Name d) "send-proxy-v2") eqn:E2.
  { destruct (Nat.ltb 0 (length (Args d))) eqn:El; simpl in H.
    - inversion H; subst. split; [reflexivity|]. exists d.
      apply String.eqb_eq in E2. split; [now left|]. split; [now right|]. now apply Hargs.
    - apply IH in H. destruct H as (-> & d' & Hin & Hn & Ha).
      split; [reflexivity|]. exists d'. split; [now right|]. now split. }
  simpl in H. apply IH in H. destruct H as (-> & d' & Hin & Hn & Ha).
  split; [reflexivity|]. exists d'. split; [now right|]. now split.
Qed.

Lemma legacy_SendProxy_loop (dirs : list Directive) :
  forall r r',
  range_loop config_go.parse_case dirs r = Ok r' ->
  config_go.SendProxy r' = last_variant dirs (config_go.SendProxy r).
Proof.
  induction dirs as [|d dirs IH]; intros r r' H.
  - simpl in H. now inversion H.
  - simpl in H. apply bind_Ok in H. destruct H as (r1 & H1 & H).
    apply IH in H. rewrite H. clear H IH. simpl.
    unfold config_go.parse_case in H1.
    destruct (String.eqb (Name d) "backend") eqn:Eb.
    { apply String.eqb_eq in Eb. rewrite Eb. cbn [String.eqb Ascii.eqb Bool.eqb].
      destruct (negb _); [discriminate|]. now inversion H1. }
    destruct (String.eqb (Name d) "deny") eqn:Ed.
    { apply String.eqb_eq in Ed. rewrite Ed. cbn [String.eqb Ascii.eqb Bool.eqb].
      destruct (negb _); [discriminate|]. apply bind_Ok in H1.
      destruct H1 as (l & _ & H1). now inversion H1. }
    destruct (String.eqb (Name d) "allow") eqn:El.
    { apply String.eqb_eq in El. rewrite El. cbn [String.eqb Ascii.eqb Bool.eqb].
      destruct (negb _); [discriminate|]. apply bind_Ok in H1.
      destruct H1 as (l & _ & H1). now inversion H1. }
    destruct (String.eqb (Name d) "send-proxy").
    { destruct (Nat.ltb 0 (length (Args d))); [discriminate|]. now inversion H1. }
    destruct (String.eqb (Name d) "send-proxy-v2").
    { destruct (Nat.ltb 0 (length (Args d))); [discriminate|]. now inversion H1. }
    now inversion H1.
Qed.

(** C5 fails as it is worded where a block holds both directives: the
    backend block is read in order and each of the two directives overwrites
    the variant, so the block [send-proxy; send-proxy-v2] gives V2 although
    it contains [send-proxy], and the other order gives V1 although it
    contains [send-proxy-v2]. *)
Lemma C5_both_directives_last_wins :
  (has_name "send-proxy" (Directives proxy_then_v2) = true
   /\ part_000.parseBackend proxy_then_v2
      = Ok (part_000.mkBackend "127.0.0.1:9000" ProxyV2))
  /\ (has_name "send-proxy-v2" (Directives v2_then_proxy) = true
      /\ part_000.parseBackend v2_then_proxy
         = Ok (part_000.mkBackend "127.0.0.1:9000" ProxyV1)).
Proof. repeat split. Qed.

(** C5, amended: in the loader of [part_000], a [backend] or [acme]
    directive with exactly one argument sets the backend of its kind to what
    [parseBackend] answers; unless a [send-proxy] or [send-proxy-v2] child
    has an argument (which is fatal), the descriptor has the argument as its
    address, and its variant is the one of the last [send-proxy] or
    [send-proxy-v2] child of the block: V1 when the block holds
    [send-proxy] and no [send-proxy-v2], V2 when it holds [send-proxy-v2]
    and no [send-proxy], None when it holds neither; it is one of None, V1
    and V2. *)
Theorem C5_backend_descriptor (dir : Directive) (a : string) :
  Args dir = [a] ->
  (forall route, Name dir = "backend" ->
     part_000.parse_case route dir
     = (b <- part_000.parseBackend dir ;; Ok (part_000.set_Backend route (Some b))))
  /\ (forall route, Name dir = "acme" ->
        part_000.parse_case route dir
        = (b <- part_000.parseBackend dir ;; Ok (part_000.set_ACME route (Some b))))
  /\ (part_000.parseBackend dir
      = Ok (part_000.mkBackend a (last_variant (Directives dir) ProxyNone))
      \/ (part_000.parseBackend dir = Fatal (Msg "Invalid send-proxy directive")
          /\ exists d, In d (Directives dir)
                       /\ (Name d = "send-proxy" \/ Name d = "send-proxy-v2")
                       /\ Args d <> []))
  /\ (has_name "send-proxy" (Directives dir) = true ->
      has_name "send-proxy-v2" (Directives dir) = false ->
      last_variant (Directives dir) ProxyNone = ProxyV1)
  /\ (has_name "send-proxy-v2" (Directives dir) = true ->
      has_name "send-proxy" (Directives dir) = false ->
      last_variant (Directives dir) ProxyNone = ProxyV2)
  /\ (has_name "send-proxy" (Directives dir) = false ->
      has_name "send-proxy-v2" (Directives dir) = false ->
      last_variant (Directives dir) ProxyNone = ProxyNone)
  /\ In (last_variant (Directives dir) ProxyNone) [ProxyNone; ProxyV1; ProxyV2].
Proof.
  intros Ha.
  split; [|split; [|split; [|split; [|split; [|split]]]]].
  - intros route Hn. unfold part_000.parse_case. now rewrite Hn, Ha.
  - intros route Hn. unfold part_000.parse_case. now rewrite Hn, Ha.
  - unfold part_000.parseBackend. rewrite Ha. cbn [nth].
    destruct (range_loop part_000.parseBackend_case (Directives dir)
                         (part_000.mkBackend a ProxyNone)) as [out|m|] eqn:E.
    + left. apply parseBackend_loop in E. now rewrite E.
    + right. apply parseBackend_loop_fatal in E. destruct E as [-> E]. now split.
    + exfalso. revert E. apply range_loop_total.
      intros. apply parseBackend_case_total.
  - apply last_variant_v1.
  - apply last_variant_v2.
  - apply last_variant_neither.
  - apply last_variant_range.
Qed.

Lemma C5_backend_descriptor_witness :
  Args proxy_backend = ["127.0.0.1:9001"]
  /\ part_000.parseBackend proxy_backend
     = Ok (part_000.mkBackend "127.0.0.1:9001" ProxyV1)
  /\ last_variant (Directives proxy_backend) ProxyNone = ProxyV1.
Proof.
  split; [reflexivity|]. split; [reflexivity|].
  apply (proj1 (proj2 (proj2 (proj2
           (C5_backend_descriptor proxy_backend "127.0.0.1:9001" eq_refl)))));
    reflexivity.
Defined.

(** * Arity and unknown directives *)

Lemma length_not_1 (l : list string) : length l <> 1 -> negb (Nat.eqb (length l) 1) = true.
Proof. intros H. apply negb_true_iff. now apply Nat.eqb_neq. Qed.

Lemma args_not_nil (l : list string) : l <> [] -> Nat.ltb 0 (length l) = true.
Proof. destruct l; [congruence|reflexivity]. Qed.

Lemma not_In_eqb (name : string) (known : list string) (k : string) :
  ~ In name known -> In k known -> String.eqb name k = false.
Proof. intros Hn Hk. apply String.eqb_neq. intros E. subst. contradiction. Qed.

Lemma route_arity_fatal (route : part_000.Route) (dir : Directive) :
  In (Name dir) route_keywords -> length (Args dir) <> 1 ->
  part_000.parse_case route dir = Fatal (Msg ("Invalid " ++ Name dir ++ " directive")).
Proof.
  intros Hn Ha. apply length_not_1 in Ha. unfold part_000.parse_case.
  unfold route_keywords in Hn. name_cases Hn; cbn; now rewrite Ha.
Qed.

Lemma proxy_arity_fatal (backend : part_000.Backend) (d : Directive) :
  In (Name d) proxy_keywords -> Args d <> [] ->
  part_000.parseBackend_case backend d = Fatal (Msg "Invalid send-proxy directive").
Proof.
  intros Hn Ha. apply args_not_nil in Ha. unfold part_000.parseBackend_case.
  unfold proxy_keywords in Hn.
  name_cases Hn; cbn [String.eqb Ascii.eqb Bool.eqb]; now rewrite Ha.
Qed.

Lemma route_unknown_ignored (route : part_000.Route) (dir : Directive) :
  ~ In (Name dir) route_keywords -> part_000.parse_case route dir = Ok route.
Proof.
  intros Hn. unfold part_000.parse_case.
  rewrite !(not_In_eqb _ _ _ Hn) by (simpl; tauto). reflexivity.
Qed.

Lemma proxy_unknown_ignored (backend : part_000.Backend) (d : Directive) :
  ~ In (Name d) proxy_keywords -> part_000.parseBackend_case backend d = Ok backend.
Proof.
  intros Hn. unfold part_000.parseBackend_case.
  rewrite !(not_In_eqb _ _ _ Hn) by (simpl; tauto). reflexivity.
Qed.

Lemma legacy_route_arity_fatal (route : config_go.Route) (dir : Directive) :
  In (Name dir) legacy_route_keywords -> length (Args dir) <> 1 ->
  config_go.parse_case route dir = Fatal (Msg ("Invalid " ++ Name dir ++ " directive")).
Proof.
  intros Hn Ha. apply length_not_1 in Ha. unfold config_go.parse_case.
  unfold legacy_route_keywords in Hn. name_cases Hn; cbn; now rewrite Ha.
Qed.

Lemma legacy_proxy_arity_fatal (route : config_go.Route) (dir : Directive) :
  In (Name dir) proxy_keywords -> Args dir <> [] ->
  config_go.parse_case route dir = Fatal (Msg "Invalid send-proxy directive").
Proof.
  intros Hn Ha. apply args_not_nil in Ha. unfold config_go.parse_case.
  unfold proxy_keywords in Hn.
  name_cases Hn; cbn [String.eqb Ascii.eqb Bool.eqb]; now rewrite Ha.
Qed.

Lemma legacy_unknown_ignored (route : config_go.Route) (dir : Directive) :
  ~ In (Name dir) (legacy_route_keywords ++ proxy_keywords) ->
  config_go.parse_case route dir = Ok route.
Proof.
  intros Hn. unfold config_go.parse_case.
  rewrite !(not_In_eqb _ _ _ Hn) by (simpl; tauto). reflexivity.
Qed.

(** A load that succeeds has run every child of every route block, and every
    child of every backend block, with success. *)
Lemma parse_children_ok (c c' : part_000.Config) (root d dir : Directive) :
  part_000.parse c root = Ok c' -> In d (Directives root) -> In dir (Directives d) ->
  exists r r', part_000.parse_case r dir = Ok r'.
Proof.
  intros H Hd Hdir. apply parse_routes in H. destruct H as (routes & HF & _).
  destruct (Forall2_In_l _ _ _ _ HF Hd) as (r & _ & Hr).
  apply parse_route_inv in Hr. destruct Hr as (domains & r1 & _ & Hc & _).
  eapply range_loop_In; eassumption.
Qed.

Lemma parse_grandchildren_ok (c c' : part_000.Config) (root d dir g : Directive) :
  part_000.parse c root = Ok c' -> In d (Directives root) -> In dir (Directives d) ->
  In (Name dir) ["backend"; "acme"] -> In g (Directives dir) ->
  exists b b', part_000.parseBackend_case b g = Ok b'.
Proof.
  intros H Hd Hdir Hn Hg.
  destruct (parse_children_ok _ _ _ _ _ H Hd Hdir) as (r & r' & Hr).
  unfold part_000.parse_case in Hr.
  assert (Hb : exists b, part_000.parseBackend dir = Ok b).
  { name_cases Hn; cbn in Hr; destruct (negb _); try discriminate;
      apply bind_Ok in Hr; destruct Hr as (b & Hb & _); now exists b. }
  destruct Hb as (b & Hb). unfold part_000.parseBackend in Hb.
  eapply range_loop_In; eassumption.
Qed.

Lemma legacy_parse_children_ok (c c' : config_go.Config) (root d dir : Directive) :
  config_go.parse c root = Ok c' -> In d (Directives root) -> In dir (Directives d) ->
  exists r r', config_go.parse_case r dir = Ok r'.
Proof.
  intros H Hd Hdir. apply legacy_parse_routes in H. destruct H as (routes & HF & _).
  destruct (Forall2_In_l _ _ _ _ HF Hd) as (r & _ & Hr).
  apply legacy_parse_route_inv in Hr. destruct Hr as (domains & r1 & _ & Hc & _).
  eapply range_loop_In; eassumption.
Qed.

(** Within the modelled fragment of [regexp], a load is never left open: it
    succeeds or it is fatal. *)
Lemma parse_total (c : part_000.Config) (root : Directive) :
  (forall d dom, In d (Directives root) -> In dom (strings.Split (Name d) comma) ->
                 part_000.domain2Regex dom <> regexp.CompileBeyond) ->
  part_000.parse c root <> Unmodelled.
Proof.
  intros Hfrag. unfold part_000.parse.
  apply bind_total; [|discriminate].
  apply range_loop_total. intros routes d Hd.
  apply bind_total; [|discriminate].
  unfold part_000.parse_route.
  apply bind_total.
  - apply range_loop_total. intros a dom Hdom. unfold append_domain.
    apply bind_total; [|discriminate].
    unfold compile_domain. specialize (Hfrag d dom Hd Hdom).
    destruct (part_000.domain2Regex dom); [discriminate|discriminate|congruence].
  - intros domains _. apply bind_total; [|discriminate].
    apply range_loop_total. intros. apply parse_case_total.
Qed.

Lemma not_succeeded {A : Type} (x : outcome A) :
  (forall a, x <> Ok a) -> succeeded x = false.
Proof. destruct x as [a| |]; intros H; [now destruct (H a)|reflexivity|reflexivity]. Qed.

(** C6: in the route block, [backend], [acme], [deny] and [allow] with an
    argument count other than one are fatal; in the backend block,
    [send-proxy] and [send-proxy-v2] with an argument are fatal; a child of
    either block with any other name leaves the route, or the backend, as it
    was. A configuration that holds such a malformed directive does not
    load, and within the modelled fragment of [regexp] a load that does not
    succeed is fatal. The loader of [config.go] does the same with the names
    it knows: [backend], [deny], [allow], and [send-proxy] and
    [send-proxy-v2] in the route block. *)
Theorem C6_arity_and_unknown :
  (forall route dir,
     In (Name dir) route_keywords -> length (Args dir) <> 1 ->
     part_000.parse_case route dir
     = Fatal (Msg ("Invalid " ++ Name dir ++ " directive")))
  /\ (forall backend d,
        In (Name d) proxy_keywords -> Args d <> [] ->
        part_000.parseBackend_case backend d = Fatal (Msg "Invalid send-proxy directive"))
  /\ (forall route dir,
        ~ In (Name dir) route_keywords -> part_000.parse_case route dir = Ok route)
  /\ (forall backend d,
        ~ In (Name d) proxy_keywords -> part_000.parseBackend_case backend d = Ok backend)
  /\ (forall c root d dir,
        In d (Directives root) -> In dir (Directives d) ->
        In (Name dir) route_keywords -> length (Args dir) <> 1 ->
        succeeded (part_000.parse c root) = false)
  /\ (forall c root d dir g,
        In d (Directives root) -> In dir (Directives d) ->
        In (Name dir) ["backend"; "acme"] -> In g (Directives dir) ->
        In (Name g) proxy_keywords -> Args g <> [] ->
        succeeded (part_000.parse c root) = false)
  /\ (forall c root,
        (forall d dom, In d (Directives root) ->
                       In dom (strings.Split (Name d) comma) ->
                       part_000.domain2Regex dom <> regexp.CompileBeyond) ->
        succeeded (part_000.parse c root) = false ->
        is_fatal (part_000.parse c root) = true)
  /\ (forall route dir,
        In (Name dir) legacy_route_keywords -> length (Args dir) <> 1 ->
        config_go.parse_case route dir
        = Fatal (Msg ("Invalid " ++ Name dir ++ " directive")))
  /\ (forall route dir,
        In (Name dir) proxy_keywords -> Args dir <> [] ->
        config_go.parse_case route dir = Fatal (Msg "Invalid send-proxy directive"))
  /\ (forall route dir,
        ~ In (Name dir) (legacy_route_keywords ++ proxy_keywords) ->
        config_go.parse_case route dir = Ok route)
  /\ (forall c root d dir,
        In d (Directives root) -> In dir (Directives d) ->
        (In (Name dir) legacy_route_keywords /\ length (Args dir) <> 1
         \/ In (Name dir) proxy_keywords /\ Args dir <> []) ->
        succeeded (config_go.parse c root) = false).
Proof.
  repeat match goal with |- _ /\ _ => split end.
  - exact route_arity_fatal.
  - exact proxy_arity_fatal.
  - exact route_unknown_ignored.
  - exact proxy_unknown_ignored.
  - intros c root d dir Hd Hdir Hn Ha. apply not_succeeded. intros c' H.
    destruct (parse_children_ok _ _ _ _ _ H Hd Hdir) as (r & r' & Hr).
    rewrite (route_arity_fatal r dir Hn Ha) in Hr. discriminate.
  - intros c root d dir g Hd Hdir Hn Hg Hgn Ha. apply not_succeeded. intros c' H.
    destruct (parse_grandchildren_ok _ _ _ _ _ _ H Hd Hdir Hn Hg) as (b & b' & Hb).
    rewrite (proxy_arity_fatal b g Hgn Ha) in Hb. discriminate.
  - intros c root Hfrag Hs. pose proof (parse_total c root Hfrag) as Ht.
    destruct (part_000.parse c root); [discriminate|reflexivity|congruence].
  - exact legacy_route_arity_fatal.
  - exact legacy_proxy_arity_fatal.
  - exact legacy_unknown_ignored.
  - intros c root d dir Hd Hdir Hbad. apply not_succeeded. intros c' H.
    destruct (legacy_parse_children_ok _ _ _ _ _ H Hd Hdir) as (r & r' & Hr).
    destruct Hbad as [[Hn Ha]|[Hn Ha]].
    + rewrite (legacy_route_arity_fatal r dir Hn Ha) in Hr. discriminate.
    + rewrite (legacy_proxy_arity_fatal r dir Hn Ha) in Hr. discriminate.
Qed.

Lemma C6_arity_and_unknown_witness :
  part_000.parse (part_000.mkConfig []) two_args_root
  = Fatal (Msg "Invalid backend directive")
  /\ succeeded (part_000.parse (part_000.mkConfig []) two_args_root) = false
  /\ part_000.parse_case (part_000.mkRoute [] None None [] [])
                         (leaf "send-proxy" ["x"])
     = Ok (part_000.mkRoute [] None None [] []).
Proof.
  split; [reflexivity|]. split.
  - eapply (proj1 (proj2 (proj2 (proj2 (proj2 C6_arity_and_unknown))))
              (part_000.mkConfig []) two_args_root _
              (leaf "backend" ["127.0.0.1:9000"; "extra"])).
    + left. reflexivity.
    + left. reflexivity.
    + left. reflexivity.
    + discriminate.
  - apply (proj1 (proj2 (proj2 C6_arity_and_unknown))).
    unfold route_keywords. simpl. intros [H|[H|[H|[H|[]]]]]; discriminate.
Defined.

(** * Subnets *)

Lemma ParseIP_scan_dotted (s rest : string) (ip : net.IP) :
  has_colon rest = false -> net.ParseIP_scan s rest = Some ip ->
  net.parseIPv4 s = Some ip.
Proof.
  unfold has_colon.
  induction rest as [|c rest IH]; intros Hc H; [discriminate|].
  cbn [list_ascii_of_string existsb] in Hc.
  apply orb_false_elim in Hc. destruct Hc as [Hc Hrest].
  cbn [net.ParseIP_scan] in H.
  destruct (Ascii.eqb c ".") eqn:Edot; [exact H|].
  rewrite Ascii.eqb_sym in Hc. rewrite Hc in H. now apply IH.
Qed.

Lemma To4_IPv4 (a b c d : Z) : net.To4 (net.IPv4 a b c d) = Some [a; b; c; d].
Proof. reflexivity. Qed.

(** C4 fails as it is worded for an IPv6 literal of an IPv4-mapped address:
    [::ffff:1.2.3.4] is no dotted-decimal text, it parses as an IPv6
    literal, and its entry carries the four-byte mask of a /32, not the
    sixteen-byte mask of a /128. *)
Lemma C4_mapped_literal_is_slash32 :
  net.parseIPv4 "::ffff:1.2.3.4" = None
  /\ net.parseIPv6 "::ffff:1.2.3.4" = Some mapped_1_2_3_4
  /\ parseRange "::ffff:1.2.3.4"
     = Ok (net.mkIPNet mapped_1_2_3_4 [255; 255; 255; 255]%Z)
  /\ net.CIDRMask 128 128 = repeat 255%Z 16.
Proof. repeat split; vm_compute; reflexivity. Qed.

(** C4, amended: [parseRange] answers the network of [s] when [s] parses as
    a CIDR prefix; for a bare address that [To4] takes for an IPv4 address
    (every dotted-decimal one, and an IPv6 literal of an IPv4-mapped address)
    the entry has the mask of a /32 and contains exactly that address; for
    any other bare IPv6 address the entry has the mask of a /128 and
    contains exactly that address; and when [s] is none of these the load is
    fatal. *)
Theorem C4_parseRange (s : string) :
  (forall ip n, net.ParseCIDR s = Some (ip, n) -> parseRange s = Ok n)
  /\ (net.ParseCIDR s = None ->
      forall ip v4, net.ParseIP s = Some ip -> net.To4 ip = Some v4 ->
      parseRange s = Ok (net.mkIPNet ip (net.CIDRMask 32 32))
      /\ net.CIDRMask 32 32 = [255; 255; 255; 255]%Z
      /\ forall x, net.bytes_ok x = true ->
           (net.Contains (net.mkIPNet ip (net.CIDRMask 32 32)) x = true
            <-> x = ip \/ x = v4))
  /\ (net.ParseCIDR s = None ->
      forall ip, net.ParseIP s = Some ip -> net.To4 ip = None ->
      parseRange s = Ok (net.mkIPNet ip (net.CIDRMask 128 128))
      /\ net.CIDRMask 128 128 = repeat 255%Z 16
      /\ forall x, net.bytes_ok x = true ->
           (net.Contains (net.mkIPNet ip (net.CIDRMask 128 128)) x = true <-> x = ip))
  /\ (net.ParseCIDR s = None -> net.ParseIP s = None ->
      parseRange s = Fatal (Msg ("Could not parse subnet " ++ s)))
  /\ (forall ip, net.ParseIP s = Some ip -> has_colon s = false ->
      exists a b c d, ip = net.IPv4 a b c d /\ net.To4 ip = Some [a; b; c; d]).
Proof.
  split; [|split; [|split; [|split]]].
  - intros ip n H. unfold parseRange. now rewrite H.
  - intros HC ip v4 HP H4. split; [|split].
    + unfold parseRange. now rewrite HC, HP, H4.
    + reflexivity.
    + intros x Hx. apply Contains_host32; auto. now apply ParseIP_wf16 in HP.
  - intros HC ip HP H4. split; [|split].
    + unfold parseRange. now rewrite HC, HP, H4.
    + reflexivity.
    + intros x Hx. apply Contains_host128; auto. now apply ParseIP_wf16 in HP.
  - intros HC HP. unfold parseRange. now rewrite HC, HP.
  - intros ip HP Hc. apply ParseIP_scan_dotted in HP; [|exact Hc].
    apply parseIPv4_ok in HP. destruct HP as (a & b & c & d & -> & _).
    exists a, b, c, d. split; [reflexivity|]. apply To4_IPv4.
Qed.

Lemma C4_parseRange_witness :
  (net.ParseCIDR "192.0.2.7" = None
   /\ net.ParseIP "192.0.2.7" = Some (net.IPv4 192 0 2 7)
   /\ net.To4 (net.IPv4 192 0 2 7) = Some [192; 0; 2; 7]%Z)
  /\ parseRange "192.0.2.7"
     = Ok (net.mkIPNet (net.IPv4 192 0 2 7) (net.CIDRMask 32 32))
  /\ parseRange "10.1.2.3/8" = Ok (net.mkIPNet [10; 0; 0; 0]%Z [255; 0; 0; 0]%Z)
  /\ parseRange "2001:db8::1"
     = Ok (net.mkIPNet [32; 1; 13; 184; 0; 0; 0; 0; 0; 0; 0; 0; 0; 0; 0; 1]%Z
                       (net.CIDRMask 128 128))
  /\ parseRange "example" = Fatal (Msg "Could not parse subnet example").
Proof.
  split; [repeat split|]. split.
  - apply (proj1 (proj2 (C4_parseRange "192.0.2.7")) eq_refl
             (net.IPv4 192 0 2 7) [192; 0; 2; 7]%Z eq_refl eq_refl).
  - split.
    + apply (proj1 (C4_parseRange "10.1.2.3/8")
               (net.IPv4 10 1 2 3) (net.mkIPNet [10; 0; 0; 0]%Z [255; 0; 0; 0]%Z)).
      vm_compute. reflexivity.
    + split.
      * apply (proj1 (proj2 (proj2 (C4_parseRange "2001:db8::1"))) eq_refl
                 [32; 1; 13; 184; 0; 0; 0; 0; 0; 0; 0; 0; 0; 0; 0; 1]%Z
                 eq_refl eq_refl).
      * apply (proj1 (proj2 (proj2 (proj2 (C4_parseRange "example")))) eq_refl eq_refl).
Defined.

(** * The redirect handler *)

Lemma hexEscapeNonASCII_ascii (s : string) :
  ascii_text s = true -> main_go.hexEscapeNonASCII s = s.
Proof.
  induction s as [|c s IH]; simpl; intros H; [reflexivity|].
  apply andb_prop in H. destruct H as [Hc Hs].
  unfold regexp.is_ascii in Hc. apply N.ltb_lt in Hc.
  destruct (N.leb_spec 128 (N_of_ascii c)) as [Hge|_]; [lia|].
  now rewrite IH.
Qed.

Lemma ascii_text_app (a b : string) :
  ascii_text (a ++ b)%string = ascii_text a && ascii_text b.
Proof.
  induction a as [|c a IH]; simpl; [reflexivity|]. now rewrite IH, andb_assoc.
Qed.

Lemma bind_port_bare (port : string) :
  has_colon port = false -> bind_port (String ":" port) = port.
Proof. unfold has_colon. simpl. now intros ->. Qed.

(** C3 fails as it is worded for the port 443: the handler appends the bind
    address whatever its port, so with the default [-bind :443] the
    [Location] of the scenario is [https://h.example:443/x?y]. *)
Lemma C3_port_443_is_appended :
  main_go.Location (main_go.newRedirect main_go.default_bind get_x_y)
  = "https://h.example:443/x?y"
  /\ spec_Location main_go.default_bind "h.example" "/x?y" = "https://h.example/x?y".
Proof. split; reflexivity. Qed.

(** C3, amended: for a bind address [:port] (no host part), the response to a
    request with Host header [h] and request-URI [u] has status 301 and the
    [Location] [https://] + [h] + [:] + [port] + [u], whatever the port, 443
    too (bytes from 0x80 on are percent-escaped); when the port is not 443
    this is the [Location] of the claim. *)
Theorem C3_redirect_location (port h u : string) :
  main_go.StatusCode (main_go.newRedirect (":" ++ port) (main_go.mkRequest h u)) = 301%Z
  /\ main_go.Location (main_go.newRedirect (":" ++ port) (main_go.mkRequest h u))
     = main_go.hexEscapeNonASCII ("https://" ++ h ++ ":" ++ port ++ u)
  /\ (ascii_text h = true -> ascii_text port = true -> ascii_text u = true ->
      main_go.Location (main_go.newRedirect (":" ++ port) (main_go.mkRequest h u))
      = ("https://" ++ h ++ ":" ++ port ++ u)%string)
  /\ (ascii_text h = true -> ascii_text port = true -> ascii_text u = true ->
      has_colon port = false -> port <> "443" ->
      main_go.Location (main_go.newRedirect (":" ++ port) (main_go.mkRequest h u))
      = spec_Location (":" ++ port) h u).
Proof.
  assert (E : main_go.Location
                (main_go.newRedirect (":" ++ port) (main_go.mkRequest h u))
              = main_go.hexEscapeNonASCII ("https://" ++ h ++ ":" ++ port ++ u)).
  { reflexivity. }
  assert (A : ascii_text h = true -> ascii_text port = true -> ascii_text u = true ->
              main_go.hexEscapeNonASCII ("https://" ++ h ++ ":" ++ port ++ u)
              = ("https://" ++ h ++ ":" ++ port ++ u)%string).
  { intros Hh Hp Hu. apply hexEscapeNonASCII_ascii.
    change (ascii_text ("https://" ++ (h ++ ":" ++ port ++ u)) = true).
    rewrite !ascii_text_app, Hh, Hp, Hu. reflexivity. }
  split; [reflexivity|]. split; [exact E|]. split.
  - intros Hh Hp Hu. rewrite E. now apply A.
  - intros Hh Hp Hu Hc Hport. rewrite E, (A Hh Hp Hu).
    unfold spec_Location. change (":" ++ port)%string with (String ":" port).
    rewrite (bind_port_bare port Hc).
    apply String.eqb_neq in Hport. now rewrite Hport.
Qed.

Lemma C3_redirect_location_witness :
  main_go.Location (main_go.newRedirect ":8443" get_x_y) = "https://h.example:8443/x?y"
  /\ main_go.Location (main_go.newRedirect ":8443" get_x_y)
     = spec_Location ":8443" "h.example" "/x?y".
Proof.
  split.
  - apply (proj1 (proj2 (proj2 (C3_redirect_location "8443" "h.example" "/x?y"))));
      reflexivity.
  - apply (proj2 (proj2 (proj2 (C3_redirect_location "8443" "h.example" "/x?y"))));
      try reflexivity. discriminate.
Defined.

(** * Empty elements of a domain list *)

Lemma Split_app_sep (a b : string) (sep : ascii) :
  strings.Split (a ++ String sep b) sep = strings.Split a sep ++ strings.Split b sep.
Proof.
  induction a as [|c a IH]; simpl.
  - now rewrite Ascii.eqb_refl.
  - destruct (Ascii.eqb c sep); rewrite IH; [reflexivity|].
    pose proof (Split_not_nil a sep) as Hne.
    destruct (strings.Split a sep) as [|piece pieces]; [congruence|reflexivity].
Qed.

Lemma Forall2_nth_error {A B : Type} (R : A -> B -> Prop) (xs : list A) (ys : list B) :
  Forall2 R xs ys ->
  forall i x, nth_error xs i = Some x -> exists y, nth_error ys i = Some y /\ R x y.
Proof.
  induction 1 as [|x0 y0 xs ys Hxy HF IH]; intros [|i] x Hx; simpl in *; try discriminate.
  - inversion Hx; subst. now exists y0.
  - now apply IH.
Qed.

Lemma Forall2_exists {A B : Type} (R : A -> B -> Prop) (xs : list A) :
  (forall x, In x xs -> exists y, R x y) -> exists ys, Forall2 R xs ys.
Proof.
  induction xs as [|x xs IH]; intros H.
  - exists []. constructor.
  - destruct (H x (or_introl eq_refl)) as (y & Hy).
    destruct IH as (ys & Hys); [intros x' Hx'; apply H; now right|].
    exists (y :: ys). now constructor.
Qed.

Lemma MatchString_empty_anchored (s : string) :
  regexp.MatchString [regexp.Bol; regexp.Eol] s = true <-> s = "".
Proof.
  rewrite MatchString_anchored. destruct s; simpl; split; congruence.
Qed.

Lemma MatchString_empty_regexp (s : string) : regexp.MatchString [] s = true.
Proof. unfold regexp.MatchString. destruct s; reflexivity. Qed.

(** C10: a leading, a trailing or a doubled comma gives the domain list an
    empty element; the loaders compile it like any other: the loader of
    [part_000] to the matcher of [^$], which accepts the empty host only,
    the loader of [config.go] to the matcher of the empty expression, which
    accepts every host; the empty element never makes the loop over the
    domains fail, and the matcher stands in [Domains] at its place. *)
Theorem C10_empty_domain_element :
  (forall s, strings.Split ("," ++ s) comma = "" :: strings.Split s comma)
  /\ (forall s, strings.Split (s ++ ",") comma = strings.Split s comma ++ [""])
  /\ (forall a b, strings.Split (a ++ ",," ++ b) comma
                  = strings.Split a comma ++ "" :: strings.Split b comma)
  /\ ((domain2Regex_loop "^" "" ++ "$")%string = "^$"
      /\ part_000.domain2Regex "" = regexp.CompileOk [regexp.Bol; regexp.Eol])
  /\ (forall domains,
        append_domain part_000.domain2Regex domains ""
        = Ok (domains ++ [[regexp.Bol; regexp.Eol]]))
  /\ (forall s, regexp.MatchString [regexp.Bol; regexp.Eol] s = true <-> s = "")
  /\ (domain2Regex_loop "" "" = "" /\ config_go.domain2Regex "" = regexp.CompileOk [])
  /\ (forall domains,
        append_domain config_go.domain2Regex domains "" = Ok (domains ++ [[]]))
  /\ (forall s, regexp.MatchString [] s = true)
  /\ (forall d r i,
        part_000.parse_route d = Ok r ->
        nth_error (strings.Split (Name d) comma) i = Some "" ->
        nth_error (part_000.Domains r) i = Some [regexp.Bol; regexp.Eol])
  /\ (forall d,
        (forall dom, In dom (strings.Split (Name d) comma) -> dom <> "" ->
                     exists re, part_000.domain2Regex dom = regexp.CompileOk re) ->
        exists domains,
          range_loop (append_domain part_000.domain2Regex)
                     (strings.Split (Name d) comma) [] = Ok domains)
  /\ map part_000.Domains
         (part_000.Routes (loaded (part_000.mkConfig [])
                                  (part_000.parse (part_000.mkConfig [])
                                                  doubled_comma_root)))
     = [[regexp.Bol :: glob_items "a.example" ++ [regexp.Eol];
         [regexp.Bol; regexp.Eol];
         regexp.Bol :: glob_items "b.example" ++ [regexp.Eol]]].
Proof.
  repeat match goal with |- _ /\ _ => split end;
    try reflexivity.
  - intros s. change (s ++ ",")%string with (s ++ String comma "")%string.
    apply Split_app_sep.
  - intros a b.
    change (a ++ ",," ++ b)%string with (a ++ String comma (String comma b))%string.
    rewrite Split_app_sep. f_equal.
  - exact MatchString_empty_anchored.
  - exact MatchString_empty_regexp.
  - intros d r i Hr Hi. apply route_built in Hr. destruct Hr as [HF _].
    destruct (Forall2_nth_error _ _ _ HF i "" Hi) as (re & Hre & Hc).
    rewrite Hre. vm_compute in Hc. now inversion Hc.
  - intros d H.
    destruct (Forall2_exists
                (fun dom re => part_000.domain2Regex dom = regexp.CompileOk re)
                (strings.Split (Name d) comma)) as (domains & HF).
    + intros dom Hin. destruct (String.eqb_spec dom "") as [->|Hne].
      * now exists [regexp.Bol; regexp.Eol].
      * now apply H.
    + exists domains. now apply domains_loop.
Qed.

(** * Reading the file *)

Lemma parse_domains_ok (c c' : part_000.Config) (root d : Directive) (dom : string) :
  part_000.parse c root = Ok c' -> In d (Directives root) ->
  In dom (strings.Split (Name d) comma) ->
  exists re, part_000.domain2Regex dom = regexp.CompileOk re.
Proof.
  intros H Hd Hdom. apply parse_routes in H. destruct H as (routes & HF & _).
  destruct (Forall2_In_l _ _ _ _ HF Hd) as (r & _ & Hr).
  apply route_built in Hr. destruct Hr as [HD _].
  destruct (Forall2_In_l _ _ _ _ HD Hdom) as (re & _ & Hre). now exists re.
Qed.

Lemma parse_subnets_ok (c c' : part_000.Config) (root d dir : Directive) (sub : string) :
  part_000.parse c root = Ok c' -> In d (Directives root) -> In dir (Directives d) ->
  In (Name dir) ["deny"; "allow"] ->
  In sub (strings.Split (nth 0 (Args dir) "") comma) ->
  exists n, parseRange sub = Ok n.
Proof.
  intros H Hd Hdir Hn Hsub.
  destruct (parse_children_ok _ _ _ _ _ H Hd Hdir) as (r & r' & Hr).
  unfold part_000.parse_case in Hr.
  assert (Hl : exists l l', append_ranges l (nth 0 (Args dir) "") = Ok l').
  { name_cases Hn; cbn in Hr; destruct (negb _); try discriminate;
      apply bind_Ok in Hr; destruct Hr as (l' & Hl & _); eauto. }
  destruct Hl as (l & l' & Hl). apply append_ranges_Ok in Hl.
  destruct Hl as (ns & HF & _).
  destruct (Forall2_In_l _ _ _ _ HF Hsub) as (n & _ & Hn'). now exists n.
Qed.

(** A configuration with a content error does not load. *)
Lemma content_error_no_load (c : part_000.Config) (root : Directive) :
  content_error root -> succeeded (part_000.parse c root) = false.
Proof.
  intros Herr. apply not_succeeded. intros c' H.
  destruct Herr as [(d & dom & e & Hd & Hdom & He)
                   |[(d & dir & sub & Hd & Hdir & Hn & Hsub & HC & HP)
                    |[(d & dir & Hd & Hdir & Hn & Ha)
                     |(d & dir & g & Hd & Hdir & Hn & Hg & Hgn & Ha)]]].
  - destruct (parse_domains_ok _ _ _ _ _ H Hd Hdom) as (re & Hre). congruence.
  - destruct (parse_subnets_ok _ _ _ _ _ _ H Hd Hdir Hn Hsub) as (n & Hn').
    unfold parseRange in Hn'. rewrite HC, HP in Hn'. discriminate.
  - destruct (parse_children_ok _ _ _ _ _ H Hd Hdir) as (r & r' & Hr).
    rewrite (route_arity_fatal r dir Hn Ha) in Hr. discriminate.
  - destruct (parse_grandchildren_ok _ _ _ _ _ _ H Hd Hdir Hn Hg) as (b & b' & Hb).
    rewrite (proxy_arity_fatal b g Hgn Ha) in Hb. discriminate.
Qed.

(** ** The loaders, whatever [domain2Regex] answers *)

Lemma domains_loop_In (d2r : string -> regexp.CompileResult) (doms : list string)
  (acc out : list regexp.Regexp) (dom : string) :
  range_loop (append_domain d2r) doms acc = Ok out -> In dom doms ->
  exists re, d2r dom = regexp.CompileOk re.
Proof.
  intros H Hin. destruct (range_loop_In _ _ _ _ _ H Hin) as (a & a' & Ha).
  unfold append_domain in Ha. apply bind_Ok in Ha. destruct Ha as (re & Hre & _).
  exists re. now apply compile_domain_Ok.
Qed.

Lemma domains_loop_total (d2r : string -> regexp.CompileResult) (doms : list string)
  (acc : list regexp.Regexp) :
  (forall dom, In dom doms -> d2r dom <> regexp.CompileBeyond) ->
  range_loop (append_domain d2r) doms acc <> Unmodelled.
Proof.
  intros H. apply range_loop_total. intros a dom Hdom. unfold append_domain.
  apply bind_total; [|discriminate].
  unfold compile_domain. specialize (H dom Hdom).
  destruct (d2r dom); [discriminate|discriminate|congruence].
Qed.

Lemma routes_loop_In {R : Type} (load : Directive -> outcome R) (ds : list Directive)
  (acc out : list R) (d : Directive) :
  range_loop (fun routes directive => route <- load directive ;; Ok (routes ++ [route]))
             ds acc = Ok out ->
  In d ds -> exists r, load d = Ok r.
Proof.
  intros H Hin. apply range_loop_append in H. destruct H as (ys & HF & _).
  destruct (Forall2_In_l _ _ _ _ HF Hin) as (r & _ & Hr). now exists r.
Qed.

(** A load that succeeds has compiled every domain and run every child of
    every route block with success. *)
Lemma parse_with_ok (d2r : string -> regexp.CompileResult) (c c' : part_000.Config)
  (root d : Directive) :
  parse_with d2r c root = Ok c' -> In d (Directives root) ->
  (forall dom, In dom (strings.Split (Name d) comma) ->
               exists re, d2r dom = regexp.CompileOk re)
  /\ (forall dir, In dir (Directives d) ->
                  exists r r', part_000.parse_case r dir = Ok r').
Proof.
  unfold parse_with. intros H Hd.
  apply bind_Ok in H. destruct H as (routes & H & _).
  destruct (routes_loop_In _ _ _ _ _ H Hd) as (r & Hr).
  unfold parse_route_with in Hr.
  apply bind_Ok in Hr. destruct Hr as (domains & Hdom & Hr).
  apply bind_Ok in Hr. destruct Hr as (r1 & Hc & _).
  split.
  - intros dom Hin. eapply domains_loop_In; eassumption.
  - intros dir Hin. eapply range_loop_In; eassumption.
Qed.

Lemma legacy_parse_with_ok (d2r : string -> regexp.CompileResult)
  (c c' : config_go.Config) (root d : Directive) :
  legacy_parse_with d2r c root = Ok c' -> In d (Directives root) ->
  (forall dom, In dom (strings.Split (Name d) comma) ->
               exists re, d2r dom = regexp.CompileOk re)
  /\ (forall dir, In dir (Directives d) ->
                  exists r r', config_go.parse_case r dir = Ok r').
Proof.
  unfold legacy_parse_with. intros H Hd.
  apply bind_Ok in H. destruct H as (routes & H & _).
  destruct (routes_loop_In _ _ _ _ _ H Hd) as (r & Hr).
  unfold legacy_parse_route_with in Hr.
  apply bind_Ok in Hr. destruct Hr as (domains & Hdom & Hr).
  apply bind_Ok in Hr. destruct Hr as (r1 & Hc & _).
  split.
  - intros dom Hin. eapply domains_loop_In; eassumption.
  - intros dir Hin. eapply range_loop_In; eassumption.
Qed.

(** A [deny] or [allow] that succeeds has parsed every element of its list,
    and a [backend] or [acme] that succeeds has run every child of its
    block with success. *)
Lemma case_subnets_ok (r r' : part_000.Route) (dir : Directive) (sub : string) :
  part_000.parse_case r dir = Ok r' -> In (Name dir) ["deny"; "allow"] ->
  In sub (strings.Split (nth 0 (Args dir) "") comma) ->
  exists n, parseRange sub = Ok n.
Proof.
  intros Hr Hn Hsub. unfold part_000.parse_case in Hr.
  assert (Hl : exists l l', append_ranges l (nth 0 (Args dir) "") = Ok l').
  { name_cases Hn; cbn in Hr; destruct (negb _); try discriminate;
      apply bind_Ok in Hr; destruct Hr as (l' & Hl & _); eauto. }
  destruct Hl as (l & l' & Hl). apply append_ranges_Ok in Hl.
  destruct Hl as (ns & HF & _).
  destruct (Forall2_In_l _ _ _ _ HF Hsub) as (n & _ & Hn'). now exists n.
Qed.

Lemma legacy_case_subnets_ok (r r' : config_go.Route) (dir : Directive) (sub : string) :
  config_go.parse_case r dir = Ok r' -> In (Name dir) ["deny"; "allow"] ->
  In sub (strings.Split (nth 0 (Args dir) "") comma) ->
  exists n, parseRange sub = Ok n.
Proof.
  intros Hr Hn Hsub. unfold config_go.parse_case in Hr.
  assert (Hl : exists l l', append_ranges l (nth 0 (Args dir) "") = Ok l').
  { name_cases Hn; cbn in Hr; destruct (negb _); try discriminate;
      apply bind_Ok in Hr; destruct Hr as (l' & Hl & _); eauto. }
  destruct Hl as (l & l' & Hl). apply append_ranges_Ok in Hl.
  destruct Hl as (ns & HF & _).
  destruct (Forall2_In_l _ _ _ _ HF Hsub) as (n & _ & Hn'). now exists n.
Qed.

Lemma case_proxies_ok (r r' : part_000.Route) (dir g : Directive) :
  part_000.parse_case r dir = Ok r' -> In (Name dir) ["backend"; "acme"] ->
  In g (Directives dir) ->
  exists b b', part_000.parseBackend_case b g = Ok b'.
Proof.
  intros Hr Hn Hg. unfold part_000.parse_case in Hr.
  assert (Hb : exists b, part_000.parseBackend dir = Ok b).
  { name_cases Hn; cbn in Hr; destruct (negb _); try discriminate;
      apply bind_Ok in Hr; destruct Hr as (b & Hb & _); now exists b. }
  destruct Hb as (b & Hb). unfold part_000.parseBackend in Hb.
  eapply range_loop_In; eassumption.
Qed.

(** A configuration with a content error does not load, whichever domains
    [domain2Regex] refuses. *)
Lemma content_error_with_no_load (d2r : string -> regexp.CompileResult)
  (c : part_000.Config) (root : Directive) :
  content_error_with d2r root -> succeeded (parse_with d2r c root) = false.
Proof.
  intros Herr. apply not_succeeded. intros c' H.
  destruct Herr as [(d & dom & e & Hd & Hdom & He)
                   |[(d & dir & sub & Hd & Hdir & Hn & Hsub & HC & HP)
                    |[(d & dir & Hd & Hdir & Hn & Ha)
                     |(d & dir & g & Hd & Hdir & Hn & Hg & Hgn & Ha)]]];
    destruct (parse_with_ok _ _ _ _ _ H Hd) as [Hdoms Hdirs].
  - destruct (Hdoms dom Hdom) as (re & Hre). congruence.
  - destruct (Hdirs dir Hdir) as (r & r' & Hr).
    destruct (case_subnets_ok _ _ _ _ Hr Hn Hsub) as (n & Hn').
    unfold parseRange in Hn'. rewrite HC, HP in Hn'. discriminate.
  - destruct (Hdirs dir Hdir) as (r & r' & Hr).
    rewrite (route_arity_fatal r dir Hn Ha) in Hr. discriminate.
  - destruct (Hdirs dir Hdir) as (r & r' & Hr).
    destruct (case_proxies_ok _ _ _ _ Hr Hn Hg) as (b & b' & Hb).
    rewrite (proxy_arity_fatal b g Hgn Ha) in Hb. discriminate.
Qed.

Lemma legacy_content_error_with_no_load (d2r : string -> regexp.CompileResult)
  (c : config_go.Config) (root : Directive) :
  legacy_content_error_with d2r root ->
  succeeded (legacy_parse_with d2r c root) = false.
Proof.
  intros Herr. apply not_succeeded. intros c' H.
  destruct Herr as [(d & dom & e & Hd & Hdom & He)
                   |[(d & dir & sub & Hd & Hdir & Hn & Hsub & HC & HP)
                    |[(d & dir & Hd & Hdir & Hn & Ha)
                     |(d & dir & Hd & Hdir & Hn & Ha)]]];
    destruct (legacy_parse_with_ok _ _ _ _ _ H Hd) as [Hdoms Hdirs].
  - destruct (Hdoms dom Hdom) as (re & Hre). congruence.
  - destruct (Hdirs dir Hdir) as (r & r' & Hr).
    destruct (legacy_case_subnets_ok _ _ _ _ Hr Hn Hsub) as (n & Hn').
    unfold parseRange in Hn'. rewrite HC, HP in Hn'. discriminate.
  - destruct (Hdirs dir Hdir) as (r & r' & Hr).
    rewrite (legacy_route_arity_fatal r dir Hn Ha) in Hr. discriminate.
  - destruct (Hdirs dir Hdir) as (r & r' & Hr).
    rewrite (legacy_proxy_arity_fatal r dir Hn Ha) in Hr. discriminate.
Qed.

(** Where [domain2Regex] answers for every domain, a load is never left
    open: it succeeds or it is fatal. *)
Lemma parse_with_total (d2r : string -> regexp.CompileResult) (c : part_000.Config)
  (root : Directive) :
  answers_with d2r root -> parse_with d2r c root <> Unmodelled.
Proof.
  intros Hfrag. unfold parse_with.
  apply bind_total; [|discriminate].
  apply range_loop_total. intros routes d Hd.
  apply bind_total; [|discriminate].
  unfold parse_route_with.
  apply bind_total.
  - apply domains_loop_total. intros dom Hdom. now apply (Hfrag d).
  - intros domains _. apply bind_total; [|discriminate].
    apply range_loop_total. intros. apply parse_case_total.
Qed.

Lemma legacy_parse_with_total (d2r : string -> regexp.CompileResult)
  (c : config_go.Config) (root : Directive) :
  answers_with d2r root -> legacy_parse_with d2r c root <> Unmodelled.
Proof.
  intros Hfrag. unfold legacy_parse_with.
  apply bind_total; [|discriminate].
  apply range_loop_total. intros routes d Hd.
  apply bind_total; [|discriminate].
  unfold legacy_parse_route_with.
  apply bind_total.
  - apply domains_loop_total. intros dom Hdom. now apply (Hfrag d).
  - intros domains _. apply bind_total; [|discriminate].
    apply range_loop_total. intros. apply legacy_parse_case_total.
Qed.

(** The text of [ReadFile], the same in both loaders, over any [parse]. *)
Lemma ReadFile_text {C : Type} (env : Env) (parse : C -> Directive -> outcome C)
  (c : C) (file : string) (read : outcome (C * option error)) :
  read = match os_Open env file with
         | inr err => Ok (c, Some err)
         | inl f =>
             root <- parseDirective env (newLexer env f) ;;
             c' <- parse c root ;;
             Ok (c', None)
         end ->
  (forall c' err, read = Ok (c', Some err) <-> os_Open env file = inr err /\ c' = c)
  /\ (forall f root,
        os_Open env file = inl f -> parseDirective env (newLexer env f) = Ok root ->
        (forall c', read = Ok (c', None) <-> parse c root = Ok c')
        /\ (forall m, parse c root = Fatal m -> read = Fatal m)
        /\ (succeeded (parse c root) = false -> succeeded read = false)
        /\ (succeeded (parse c root) = false -> parse c root <> Unmodelled ->
            is_fatal read = true /\ exit_status read = Some 1%Z)).
Proof.
  intros ->. split.
  - intros c' err. destruct (os_Open env file) as [f|e].
    + split.
      * intros H. apply bind_Ok in H. destruct H as (root & _ & H).
        apply bind_Ok in H. destruct H as (c1 & _ & H). discriminate.
      * intros [H _]. discriminate.
    + split.
      * intros H. inversion H; subst. now split.
      * intros [H ->]. now inversion H.
  - intros f root Hf Hroot. rewrite Hf, Hroot. cbn [bind].
    split; [|split; [|split]].
    + intros c'. destruct (parse c root) as [c1| |]; cbn [bind];
        split; intros H; try discriminate; now inversion H.
    + intros m ->. reflexivity.
    + intros Hs. destruct (parse c root); [discriminate|reflexivity|reflexivity].
    + intros Hs Ht. destruct (parse c root); [discriminate|now split|congruence].
Qed.

(** C9: [ReadFile] returns an error exactly when the file cannot be opened,
    and then the error of [os.Open]; once the file is open it returns [nil]
    exactly when the load succeeds, and a fatal load ends the process inside
    [parse]; a configuration with a content error (a domain that [regexp]
    refuses, an element of [deny] or [allow] that is no subnet, a directive
    with the wrong count of arguments) never makes [ReadFile] return, and
    within the modelled fragment of [regexp] it is fatal with status 1. The
    [ReadFile] of [config.go] has the same text, and the same holds of it
    with the directives that its [parse] knows. None of this rests on which
    domains [regexp] refuses: with any function in the place of
    [domain2Regex], a domain that the function refuses is a content error
    like the others, and where the function answers for every domain of the
    file, as Go's [regexp.Compile] does, a content error is fatal with
    status 1. *)
Theorem C9_ReadFile_errors (env : Env) (c : part_000.Config) (file : string) :
  (forall c' err,
     part_000.ReadFile env c file = Ok (c', Some err)
     <-> os_Open env file = inr err /\ c' = c)
  /\ (forall f root,
        os_Open env file = inl f -> parseDirective env (newLexer env f) = Ok root ->
        (forall c', part_000.ReadFile env c file = Ok (c', None)
                    <-> part_000.parse c root = Ok c')
        /\ (forall m, part_000.parse c root = Fatal m ->
                      part_000.ReadFile env c file = Fatal m)
        /\ (content_error root -> succeeded (part_000.ReadFile env c file) = false)
        /\ (content_error root -> in_fragment root ->
            is_fatal (part_000.ReadFile env c file) = true
            /\ exit_status (part_000.ReadFile env c file) = Some 1%Z))
  /\ (forall c0 c' err,
        config_go.ReadFile env c0 file = Ok (c', Some err)
        <-> os_Open env file = inr err /\ c' = c0)
  /\ (forall c0 f root,
        os_Open env file = inl f -> parseDirective env (newLexer env f) = Ok root ->
        (forall c', config_go.ReadFile env c0 file = Ok (c', None)
                    <-> config_go.parse c0 root = Ok c')
        /\ (forall m, config_go.parse c0 root = Fatal m ->
                      config_go.ReadFile env c0 file = Fatal m)
        /\ (legacy_content_error_with config_go.domain2Regex root ->
            succeeded (config_go.ReadFile env c0 file) = false)
        /\ (legacy_content_error_with config_go.domain2Regex root ->
            answers_with config_go.domain2Regex root ->
            is_fatal (config_go.ReadFile env c0 file) = true
            /\ exit_status (config_go.ReadFile env c0 file) = Some 1%Z))
  /\ (ReadFile_with part_000.domain2Regex = part_000.ReadFile
      /\ legacy_ReadFile_with config_go.domain2Regex = config_go.ReadFile)
  /\ (forall d2r,
        (forall c' err,
           ReadFile_with d2r env c file = Ok (c', Some err)
           <-> os_Open env file = inr err /\ c' = c)
        /\ (forall f root,
              os_Open env file = inl f ->
              parseDirective env (newLexer env f) = Ok root ->
              (forall c', ReadFile_with d2r env c file = Ok (c', None)
                          <-> parse_with d2r c root = Ok c')
              /\ (forall m, parse_with d2r c root = Fatal m ->
                            ReadFile_with d2r env c file = Fatal m)
              /\ (content_error_with d2r root ->
                  succeeded (ReadFile_with d2r env c file) = false)
              /\ (content_error_with d2r root -> answers_with d2r root ->
                  is_fatal (ReadFile_with d2r env c file) = true
                  /\ exit_status (ReadFile_with d2r env c file) = Some 1%Z)))
  /\ (forall d2r c0,
        (forall c' err,
           legacy_ReadFile_with d2r env c0 file = Ok (c', Some err)
           <-> os_Open env file = inr err /\ c' = c0)
        /\ (forall f root,
              os_Open env file = inl f ->
              parseDirective env (newLexer env f) = Ok root ->
              (forall c', legacy_ReadFile_with d2r env c0 file = Ok (c', None)
                          <-> legacy_parse_with d2r c0 root = Ok c')
              /\ (forall m, legacy_parse_with d2r c0 root = Fatal m ->
                            legacy_ReadFile_with d2r env c0 file = Fatal m)
              /\ (legacy_content_error_with d2r root ->
                  succeeded (legacy_ReadFile_with d2r env c0 file) = false)
              /\ (legacy_content_error_with d2r root -> answers_with d2r root ->
                  is_fatal (legacy_ReadFile_with d2r env c0 file) = true
                  /\ exit_status (legacy_ReadFile_with d2r env c0 file)
                     = Some 1%Z))).
Proof.
  assert (New : forall d2r,
            (forall c' err,
               ReadFile_with d2r env c file = Ok (c', Some err)
               <-> os_Open env file = inr err /\ c' = c)
            /\ (forall f root,
                  os_Open env file = inl f ->
                  parseDirective env (newLexer env f) = Ok root ->
                  (forall c', ReadFile_with d2r env c file = Ok (c', None)
                              <-> parse_with d2r c root = Ok c')
                  /\ (forall m, parse_with d2r c root = Fatal m ->
                                ReadFile_with d2r env c file = Fatal m)
                  /\ (content_error_with d2r root ->
                      succeeded (ReadFile_with d2r env c file) = false)
                  /\ (content_error_with d2r root -> answers_with d2r root ->
                      is_fatal (ReadFile_with d2r env c file) = true
                      /\ exit_status (ReadFile_with d2r env c file) = Some 1%Z))).
  { intros d2r.
    destruct (ReadFile_text env (parse_with d2r) c file
                            (ReadFile_with d2r env c file) eq_refl) as [Hopen Hread].
    split; [exact Hopen|]. intros f root Hf Hroot.
    destruct (Hread f root Hf Hroot) as (H1 & H2 & H3 & H4).
    split; [exact H1|]. split; [exact H2|]. split.
    - intros Herr. apply H3. now apply content_error_with_no_load.
    - intros Herr Hans. apply H4.
      + now apply content_error_with_no_load.
      + now apply parse_with_total. }
  assert (Old : forall d2r c0,
            (forall c' err,
               legacy_ReadFile_with d2r env c0 file = Ok (c', Some err)
               <-> os_Open env file = inr err /\ c' = c0)
            /\ (forall f root,
                  os_Open env file = inl f ->
                  parseDirective env (newLexer env f) = Ok root ->
                  (forall c', legacy_ReadFile_with d2r env c0 file = Ok (c', None)
                              <-> legacy_parse_with d2r c0 root = Ok c')
                  /\ (forall m, legacy_parse_with d2r c0 root = Fatal m ->
                                legacy_ReadFile_with d2r env c0 file = Fatal m)
                  /\ (legacy_content_error_with d2r root ->
                      succeeded (legacy_ReadFile_with d2r env c0 file) = false)
                  /\ (legacy_content_error_with d2r root -> answers_with d2r root ->
                      is_fatal (legacy_ReadFile_with d2r env c0 file) = true
                      /\ exit_status (legacy_ReadFile_with d2r env c0 file)
                         = Some 1%Z))).
  { intros d2r c0.
    destruct (ReadFile_text env (legacy_parse_with d2r) c0 file
                            (legacy_ReadFile_with d2r env c0 file) eq_refl)
      as [Hopen Hread].
    split; [exact Hopen|]. intros f root Hf Hroot.
    destruct (Hread f root Hf Hroot) as (H1 & H2 & H3 & H4).
    split; [exact H1|]. split; [exact H2|]. split.
    - intros Herr. apply H3. now apply legacy_content_error_with_no_load.
    - intros Herr Hans. apply H4.
      + now apply legacy_content_error_with_no_load.
      + now apply legacy_parse_with_total. }
  split; [|split; [|split; [|split; [|split; [|split]]]]].
  - exact (proj1 (New part_000.domain2Regex)).
  - exact (proj2 (New part_000.domain2Regex)).
  - intros c0. exact (proj1 (Old config_go.domain2Regex c0)).
  - intros c0. exact (proj2 (Old config_go.domain2Regex c0)).
  - split; reflexivity.
  - exact New.
  - exact Old.
Qed.

Lemma C9_ReadFile_errors_witness :
  part_000.ReadFile no_file (part_000.mkConfig []) "sniproxy.conf"
  = Ok (part_000.mkConfig [], Some "open: no such file or directory")
  /\ part_000.ReadFile (one_file bad_domain_root) (part_000.mkConfig []) "sniproxy.conf"
     = Fatal (Msg "Invalid domain: a++")
  /\ exit_status (part_000.ReadFile (one_file bad_domain_root) (part_000.mkConfig [])
                                    "sniproxy.conf") = Some 1%Z
  /\ exit_status (config_go.ReadFile (one_file no_address_root) (config_go.mkConfig [])
                                     "sniproxy.conf") = Some 1%Z
  /\ exit_status (ReadFile_with refuses_open_group (one_file open_group_root)
                                (part_000.mkConfig []) "sniproxy.conf") = Some 1%Z.
Proof.
  split; [|split; [|split; [|split]]].
  - apply (proj1 (C9_ReadFile_errors no_file (part_000.mkConfig []) "sniproxy.conf")).
    now split.
  - apply (proj1 (proj2 (proj1 (proj2 (C9_ReadFile_errors (one_file bad_domain_root)
                                          (part_000.mkConfig []) "sniproxy.conf"))
                                tt bad_domain_root eq_refl eq_refl))).
    reflexivity.
  - apply (proj2 (proj2 (proj2 (proj1 (proj2 (C9_ReadFile_errors (one_file bad_domain_root)
                                          (part_000.mkConfig []) "sniproxy.conf"))
                                tt bad_domain_root eq_refl eq_refl)))).
    + left. exists (mkDirective "a++" [] [leaf "backend" ["127.0.0.1:9000"]]), "a++",
        regexp.ErrInvalidRepeatOp.
      split; [now left|]. split; [now left|]. reflexivity.
    + intros d dom [<-|[]] [<-|[]]. discriminate.
  - apply (proj2 (proj2 (proj2 (proj1 (proj2 (proj2 (proj2
             (C9_ReadFile_errors (one_file no_address_root)
                                 (part_000.mkConfig []) "sniproxy.conf"))))
             (config_go.mkConfig []) tt no_address_root eq_refl eq_refl)))).
    + right. right. left.
      exists (mkDirective "example.com" [] [leaf "backend" []]), (leaf "backend" []).
      split; [now left|]. split; [now left|]. split; [now left|]. discriminate.
    + intros d dom [<-|[]] [<-|[]]. discriminate.
  - apply (proj2 (proj2 (proj2 (proj2 (proj1 (proj2 (proj2 (proj2 (proj2 (proj2
             (C9_ReadFile_errors (one_file open_group_root)
                                 (part_000.mkConfig []) "sniproxy.conf"))))))
             refuses_open_group) tt open_group_root eq_refl eq_refl)))).
    + left. exists (mkDirective "a(b" [] [leaf "backend" ["127.0.0.1:9000"]]), "a(b",
        regexp.ErrMissingParen.
      split; [now left|]. split; [now left|]. reflexivity.
    + intros d dom [<-|[]] [<-|[]]. discriminate.
Defined.

(** * Startup *)

(** C8: [main] exits with status 1 and a message when [-conf] is empty, and
    when [ReadFile] returns an error, which it does when the file cannot be
    opened; when the flag is set and [ReadFile] returns no error, [main]
    goes on to the two listeners and does not exit; it reaches the
    listeners in no other case. *)
Theorem C8_startup (Config : Type)
  (ReadFile : Config -> string -> outcome (Config * option error))
  (empty_config : Config) (conf bind : string) :
  (conf = "" ->
   main_go.main Config ReadFile empty_config conf bind
   = Fatal (Msg "No config provided. Aborting.")
   /\ exit_status (main_go.main Config ReadFile empty_config conf bind) = Some 1%Z)
  /\ (forall c err,
        conf <> "" -> ReadFile empty_config conf = Ok (c, Some err) ->
        main_go.main Config ReadFile empty_config conf bind
        = Fatal (Msgf "Could not read config %q (%s)" [conf; err])
        /\ exit_status (main_go.main Config ReadFile empty_config conf bind) = Some 1%Z)
  /\ (forall c,
        conf <> "" -> ReadFile empty_config conf = Ok (c, None) ->
        main_go.main Config ReadFile empty_config conf bind
        = Ok (main_go.mkServing Config ":80" (main_go.newRedirect bind)
                                (main_go.mkProxy Config c) bind)
        /\ exit_status (main_go.main Config ReadFile empty_config conf bind) = None)
  /\ (forall sv,
        main_go.main Config ReadFile empty_config conf bind = Ok sv ->
        conf <> "" /\ exists c, ReadFile empty_config conf = Ok (c, None))
  /\ (forall m,
        conf <> "" -> ReadFile empty_config conf = Fatal m ->
        main_go.main Config ReadFile empty_config conf bind = Fatal m).
Proof.
  unfold main_go.main.
  split; [|split; [|split; [|split]]].
  - intros ->. now split.
  - intros c err Hc Hr. apply String.eqb_neq in Hc. rewrite Hc, Hr. now split.
  - intros c Hc Hr. apply String.eqb_neq in Hc. rewrite Hc, Hr. now split.
  - intros sv H. destruct (String.eqb_spec conf "") as [->|Hc]; [discriminate|].
    split; [exact Hc|].
    destruct (ReadFile empty_config conf) as [[c [err|]]| |]; try discriminate.
    now exists c.
  - intros m Hc Hr. apply String.eqb_neq in Hc. now rewrite Hc, Hr.
Qed.

Lemma C8_startup_witness :
  main_go.main part_000.Config (part_000.ReadFile no_file) (part_000.mkConfig [])
               "" main_go.default_bind
  = Fatal (Msg "No config provided. Aborting.")
  /\ main_go.main part_000.Config (part_000.ReadFile no_file) (part_000.mkConfig [])
                  "sniproxy.conf" main_go.default_bind
     = Fatal (Msgf "Could not read config %q (%s)"
                   ["sniproxy.conf"; "open: no such file or directory"])
  /\ succeeded (main_go.main part_000.Config (part_000.ReadFile (one_file two_routes_root))
                             (part_000.mkConfig []) "sniproxy.conf" main_go.default_bind)
     = true.
Proof.
  split; [|split].
  - apply (proj1 (C8_startup part_000.Config (part_000.ReadFile no_file)
                             (part_000.mkConfig []) "" main_go.default_bind)).
    reflexivity.
  - apply (proj1 (proj2 (C8_startup part_000.Config (part_000.ReadFile no_file)
                                    (part_000.mkConfig []) "sniproxy.conf"
                                    main_go.default_bind))
             (part_000.mkConfig []) "open: no such file or directory").
    + discriminate.
    + reflexivity.
  - destruct (proj1 (proj2 (proj2 (C8_startup part_000.Config
                                     (part_000.ReadFile (one_file two_routes_root))
                                     (part_000.mkConfig []) "sniproxy.conf"
                                     main_go.default_bind)))
                (loaded (part_000.mkConfig [])
                        (part_000.parse (part_000.mkConfig []) two_routes_root)))
      as [E _].
    + discriminate.
    + vm_compute. reflexivity.
    + rewrite E. reflexivity.
Defined.

Lemma C10_empty_domain_element_witness :
  nth_error (strings.Split "a.example,,b.example" comma) 1 = Some ""
  /\ nth_error
       (part_000.Domains
          (loaded (part_000.mkRoute [] None None [] [])
                  (part_000.parse_route
                     (mkDirective "a.example,,b.example" []
                                  [leaf "backend" ["127.0.0.1:9000"]]))))
       1
     = Some [regexp.Bol; regexp.Eol].
Proof.
  split; [reflexivity|].
  apply (proj1 (proj2 (proj2 (proj2 (proj2 (proj2 (proj2 (proj2 (proj2 (proj2
           C10_empty_domain_element)))))))))
           (mkDirective "a.example,,b.example" [] [leaf "backend" ["127.0.0.1:9000"]])).
  - vm_compute. reflexivity.
  - reflexivity.
Defined.

(** * Further properties of the loaders *)

Lemma range_loop_app {A S : Type} (body : S -> A -> outcome S) (xs ys : list A) :
  forall acc,
  range_loop body (xs ++ ys) acc = (a <- range_loop body xs acc ;; range_loop body ys a).
Proof.
  induction xs as [|x xs IH]; intros acc; simpl; [reflexivity|].
  destruct (body acc x) as [a| |]; simpl; [apply IH|reflexivity|reflexivity].
Qed.

Lemma bind_assoc {A B C : Type} (x : outcome A) (f : A -> outcome B)
  (g : B -> outcome C) :
  bind (bind x f) g = bind x (fun a => bind (f a) g).
Proof. destruct x; reflexivity. Qed.

(** X1: a list of top-level directives loads in two halves as it loads
    whole, in both loaders: the second half goes on from the configuration
    that the first half leaves, and a first half that is fatal is fatal for
    the whole. *)
Theorem X1_parse_in_two_halves (n : string) (a : list string) (ds1 ds2 : list Directive) :
  (forall c,
     part_000.parse c (mkDirective n a (ds1 ++ ds2))
     = (c1 <- part_000.parse c (mkDirective n a ds1) ;;
        part_000.parse c1 (mkDirective n a ds2)))
  /\ (forall c,
        config_go.parse c (mkDirective n a (ds1 ++ ds2))
        = (c1 <- config_go.parse c (mkDirective n a ds1) ;;
           config_go.parse c1 (mkDirective n a ds2))).
Proof.
  split; intros c.
  - unfold part_000.parse. cbn [Directives]. rewrite range_loop_app, !bind_assoc.
    destruct (range_loop _ ds1 (part_000.Routes c)); reflexivity.
  - unfold config_go.parse. cbn [Directives]. rewrite range_loop_app, !bind_assoc.
    destruct (range_loop _ ds1 (config_go.Routes c)); reflexivity.
Qed.

Lemma range_loop_first_fatal {A S : Type} (body : S -> A -> outcome S)
  (pre post : list A) (x : A) (acc a : S) (m : logmsg) :
  range_loop body pre acc = Ok a -> body a x = Fatal m ->
  range_loop body (pre ++ x :: post) acc = Fatal m.
Proof. intros Hpre Hx. rewrite range_loop_app, Hpre. simpl. now rewrite Hx. Qed.

(** X2: the load of [part_000] stops at the first error in the order of the
    file, and what follows is not looked at: a route that is fatal after
    routes that load makes the load fatal with its message; in a route
    block, a child that is fatal after children that load makes the route
    fatal with its message; and a domain that [regexp] refuses after domains
    that compile makes the route fatal with [Invalid domain], whatever the
    block holds. *)
Theorem X2_first_error_wins (m : logmsg) :
  (forall c c1 n a pre d post,
     part_000.parse c (mkDirective n a pre) = Ok c1 ->
     part_000.parse_route d = Fatal m ->
     part_000.parse c (mkDirective n a (pre ++ d :: post)) = Fatal m)
  /\ (forall name args domains pre dir post r1,
        Forall2 (fun dom re => part_000.domain2Regex dom = regexp.CompileOk re)
                (strings.Split name comma) domains ->
        range_loop part_000.parse_case pre (part_000.mkRoute domains None None [] [])
        = Ok r1 ->
        part_000.parse_case r1 dir = Fatal m ->
        part_000.parse_route (mkDirective name args (pre ++ dir :: post)) = Fatal m)
  /\ (forall name args dirs pre dom post domains e,
        strings.Split name comma = pre ++ dom :: post ->
        Forall2 (fun dom re => part_000.domain2Regex dom = regexp.CompileOk re)
                pre domains ->
        part_000.domain2Regex dom = regexp.CompileError e ->
        part_000.parse_route (mkDirective name args dirs)
        = Fatal (Msg ("Invalid domain: " ++ dom))).
Proof.
  split; [|split].
  - intros c c1 n a pre d post Hpre Hd. unfold part_000.parse in *.
    cbn [Directives] in *.
    apply bind_Ok in Hpre. destruct Hpre as (routes & Hpre & _).
    erewrite range_loop_first_fatal; [reflexivity|exact Hpre|].
    now rewrite Hd.
  - intros name args domains pre dir post r1 HD Hpre Hdir.
    unfold part_000.parse_route. cbn [Name Directives part_000.Domains].
    apply domains_loop in HD. rewrite HD. cbn [bind].
    unfold part_000.set_Domains. cbn.
    erewrite range_loop_first_fatal; [reflexivity|exact Hpre|exact Hdir].
  - intros name args dirs pre dom post domains e Hsplit HD He.
    unfold part_000.parse_route. cbn [Name Directives part_000.Domains].
    rewrite Hsplit.
    erewrite range_loop_first_fatal; [reflexivity| |].
    + apply domains_loop. exact HD.
    + unfold append_domain, compile_domain. now rewrite He.
Qed.

Lemma X2_first_error_wins_witness :
  part_000.parse (part_000.mkConfig [])
                 (mkDirective "" []
                    ([allow_deny_route]
                     ++ mkDirective "a++" [] [] :: [mkDirective "b++" [] []]))
  = Fatal (Msg "Invalid domain: a++").
Proof.
  eapply (proj1 (X2_first_error_wins (Msg "Invalid domain: a++"))).
  - vm_compute. reflexivity.
  - reflexivity.
Defined.

Lemma known_false (keywords : list string) (d : Directive) :
  known keywords d = false -> ~ In (Name d) keywords.
Proof.
  unfold known. intros H Hin.
  assert (E : existsb (String.eqb (Name d)) keywords = true).
  { apply existsb_exists. exists (Name d). split; [exact Hin|apply String.eqb_refl]. }
  congruence.
Qed.

Lemma range_loop_skip {S : Type} (body : S -> Directive -> outcome S)
  (keep : Directive -> bool) (dirs : list Directive) :
  (forall acc d, keep d = false -> body acc d = Ok acc) ->
  forall acc, range_loop body dirs acc = range_loop body (filter keep dirs) acc.
Proof.
  intros Hskip. induction dirs as [|d dirs IH]; intros acc; simpl; [reflexivity|].
  destruct (keep d) eqn:E; simpl.
  - destruct (body acc d); simpl; [apply IH|reflexivity|reflexivity].
  - rewrite (Hskip acc d E). simpl. apply IH.
Qed.

(** X3: the directives of a route block whose names the loader does not
    know can be deleted without changing what the route loads to, and the
    same holds for the children of a backend block: a misspelt directive
    is not reported, it is as if it were not there. Both loaders. *)
Theorem X3_unknown_directives_vanish (name : string) (args : list string)
  (dirs : list Directive) :
  part_000.parse_route (mkDirective name args dirs)
  = part_000.parse_route (mkDirective name args (filter (known route_keywords) dirs))
  /\ part_000.parseBackend (mkDirective name args dirs)
     = part_000.parseBackend (mkDirective name args (filter (known proxy_keywords) dirs))
  /\ config_go.parse_route (mkDirective name args dirs)
     = config_go.parse_route
         (mkDirective name args
                      (filter (known (legacy_route_keywords ++ proxy_keywords)) dirs)).
Proof.
  split; [|split].
  - unfold part_000.parse_route. cbn [Name Directives].
    destruct (range_loop (append_domain part_000.domain2Regex) _ _); try reflexivity.
    cbn [bind]. rewrite (range_loop_skip part_000.parse_case (known route_keywords));
      [reflexivity|].
    intros acc d Hd. apply route_unknown_ignored. now apply known_false.
  - unfold part_000.parseBackend. cbn [Args Directives].
    apply range_loop_skip. intros acc d Hd.
    apply proxy_unknown_ignored. now apply known_false.
  - unfold config_go.parse_route. cbn [Name Directives].
    destruct (range_loop (append_domain config_go.domain2Regex) _ _); try reflexivity.
    cbn [bind].
    rewrite (range_loop_skip config_go.parse_case
                             (known (legacy_route_keywords ++ proxy_keywords)));
      [reflexivity|].
    intros acc d Hd. apply legacy_unknown_ignored. now apply known_false.
Qed.

Lemma last_named_cons (name : string) (d : Directive) (rest : list Directive) :
  last_named name (d :: rest)
  = match last_named name rest with
    | Some x => Some x
    | None => if String.eqb (Name d) name then Some d else None
    end.
Proof. reflexivity. Qed.

(** What one child of a route block does to the two backends. *)
Lemma parse_case_backends (r r1 : part_000.Route) (d : Directive) :
  part_000.parse_case r d = Ok r1 ->
  (if String.eqb (Name d) "backend"
   then length (Args d) = 1
        /\ part_000.RouteBackend r1 = Some (backend_of d)
   else part_000.RouteBackend r1 = part_000.RouteBackend r)
  /\ (if String.eqb (Name d) "acme"
      then length (Args d) = 1
           /\ part_000.ACME r1 = Some (backend_of d)
      else part_000.ACME r1 = part_000.ACME r).
Proof.
  unfold part_000.parse_case.
  destruct (String.eqb (Name d) "backend") eqn:Eb.
  { apply String.eqb_eq in Eb. rewrite Eb. cbn [String.eqb Ascii.eqb Bool.eqb].
    destruct (Nat.eqb (length (Args d)) 1) eqn:El; [|discriminate]. cbn [negb].
    apply Nat.eqb_eq in El. intros H. apply bind_Ok in H.
    destruct H as (b & Hb & H). inversion H; subst; clear H.
    unfold part_000.parseBackend in Hb. apply parseBackend_loop in Hb. subst b.
    cbn. now repeat split. }
  destruct (String.eqb (Name d) "acme") eqn:Ea.
  { destruct (Nat.eqb (length (Args d)) 1) eqn:El; [|discriminate]. cbn [negb].
    apply Nat.eqb_eq in El. intros H. apply bind_Ok in H.
    destruct H as (b & Hb & H). inversion H; subst; clear H.
    unfold part_000.parseBackend in Hb. apply parseBackend_loop in Hb. subst b.
    cbn. now repeat split. }
  destruct (String.eqb (Name d) "deny").
  { destruct (negb _); [discriminate|]. intros H. apply bind_Ok in H.
    destruct H as (l & _ & H). inversion H; subst. now split. }
  destruct (String.eqb (Name d) "allow").
  { destruct (negb _); [discriminate|]. intros H. apply bind_Ok in H.
    destruct H as (l & _ & H). inversion H; subst. now split. }
  intros H. inversion H; subst. now split.
Qed.

Lemma children_backends (dirs : list Directive) :
  forall r r',
  range_loop part_000.parse_case dirs r = Ok r' ->
  (part_000.RouteBackend r' = last_backend "backend" dirs (part_000.RouteBackend r)
   /\ forall dir, last_named "backend" dirs = Some dir -> length (Args dir) = 1)
  /\ (part_000.ACME r' = last_backend "acme" dirs (part_000.ACME r)
      /\ forall dir, last_named "acme" dirs = Some dir -> length (Args dir) = 1).
Proof.
  unfold last_backend.
  induction dirs as [|d dirs IH]; intros r r' H.
  - simpl in H. inversion H; subst. repeat split; discriminate.
  - simpl in H. apply bind_Ok in H. destruct H as (r1 & H1 & H).
    apply parse_case_backends in H1. destruct H1 as [Hb Ha].
    apply IH in H. destruct H as [[Hb' Hlb] [Ha' Hla]].
    rewrite !last_named_cons. split.
    + destruct (last_named "backend" dirs) as [x|].
      * split; [exact Hb'|]. intros dir E. apply Hlb. exact E.
      * rewrite Hb'. destruct (String.eqb (Name d) "backend").
        -- destruct Hb as [Hl Hb]. split; [exact Hb|].
           intros dir E. now inversion E; subst.
        -- split; [exact Hb|]. discriminate.
    + destruct (last_named "acme" dirs) as [x|].
      * split; [exact Ha'|]. intros dir E. apply Hla. exact E.
      * rewrite Ha'. destruct (String.eqb (Name d) "acme").
        -- destruct Ha as [Hl Ha]. split; [exact Ha|].
           intros dir E. now inversion E; subst.
        -- split; [exact Ha|]. discriminate.
Qed.

Lemma default_deny_backends (r : part_000.Route) :
  part_000.RouteBackend (part_000.default_deny r) = part_000.RouteBackend r
  /\ part_000.ACME (part_000.default_deny r) = part_000.ACME r
  /\ part_000.Allow (part_000.default_deny r) = part_000.Allow r.
Proof. unfold part_000.default_deny. destruct (Nat.ltb _ _); now repeat split. Qed.

(** X4: in a route that [part_000] loads, the backend is the descriptor of
    the last [backend] directive of the block, which has exactly one
    argument, and likewise the ACME backend for [acme]; a block without a
    [backend] directive loads all the same, and its route has a nil
    backend. *)
Theorem X4_last_backend_or_nil (d : Directive) (r : part_000.Route) :
  part_000.parse_route d = Ok r ->
  part_000.RouteBackend r = last_backend "backend" (Directives d) None
  /\ part_000.ACME r = last_backend "acme" (Directives d) None
  /\ (has_name "backend" (Directives d) = false -> part_000.RouteBackend r = None)
  /\ (forall dir,
        last_named "backend" (Directives d) = Some dir ->
        exists a, Args dir = [a]
                  /\ part_000.RouteBackend r
                     = Some (part_000.mkBackend a (last_variant (Directives dir)
                                                                ProxyNone))).
Proof.
  intros H. apply parse_route_inv in H. destruct H as (domains & r1 & _ & HC & ->).
  apply children_backends in HC. cbn in HC. destruct HC as [[Hb Hlb] [Ha _]].
  destruct (default_deny_backends r1) as (Eb & Ea & _). rewrite Eb, Ea.
  split; [exact Hb|]. split; [exact Ha|]. split.
  - intros Hn. rewrite Hb. unfold last_backend.
    assert (E : last_named "backend" (Directives d) = None).
    { clear -Hn. induction (Directives d) as [|x l IH]; [reflexivity|].
      rewrite has_name_cons in Hn. apply orb_false_elim in Hn. destruct Hn as [E1 E2].
      rewrite last_named_cons, (IH E2), E1. reflexivity. }
    now rewrite E.
  - intros dir E. pose proof (Hlb dir E) as Hl.
    destruct (Args dir) as [|a [|a' l]] eqn:EA; try discriminate.
    exists a. split; [reflexivity|]. rewrite Hb. unfold last_backend, backend_of.
    now rewrite E, EA.
Qed.

Lemma X4_last_backend_or_nil_witness :
  part_000.RouteBackend (loaded (part_000.mkRoute [] None None [] [])
                                (part_000.parse_route two_backends_route))
  = Some (part_000.mkBackend "b:2" ProxyV2)
  /\ part_000.RouteBackend (loaded (part_000.mkRoute [] None None [] [])
                                   (part_000.parse_route misspelt_route))
     = None.
Proof.
  split.
  - exact (proj1 (X4_last_backend_or_nil two_backends_route _ eq_refl)).
  - apply (proj1 (proj2 (proj2 (X4_last_backend_or_nil misspelt_route _ eq_refl)))).
    reflexivity.
Defined.

Lemma declared_nil (name : string) (dirs : list Directive) :
  declared name dirs = [] <-> has_name name dirs = false.
Proof.
  induction dirs as [|d dirs IH]; [now split|].
  rewrite has_name_cons. simpl. destruct (String.eqb (Name d) name); simpl.
  - split; [|discriminate]. intros H. apply app_eq_nil in H. destruct H as [H _].
    now apply Split_not_nil in H.
  - exact IH.
Qed.

(** The access lists of a route, from what the loop over its block and the
    default deny do to the three shared fields. *)
Lemma acl_of_fields {R : Type} (doms : R -> list regexp.Regexp)
  (deny allow : R -> list net.IPNet) (dirs : list Directive) (r0 r1 : R)
  (final : list net.IPNet) :
  fields_after doms deny allow dirs r0 r1 -> deny r0 = [] -> allow r0 = [] ->
  final = (if Nat.ltb 0 (length (allow r1))
           then (deny r1 ++ [all4]) ++ [all6] else deny r1) ->
  Forall2 (fun s n => parseRange s = Ok n) (declared "allow" dirs) (allow r1)
  /\ (has_name "allow" dirs = true ->
      exists denied,
        Forall2 (fun s n => parseRange s = Ok n) (declared "deny" dirs) denied
        /\ final = denied ++ [all4; all6])
  /\ (has_name "allow" dirs = false ->
      allow r1 = []
      /\ Forall2 (fun s n => parseRange s = Ok n) (declared "deny" dirs) final).
Proof.
  intros (_ & (dl & HF & Hd) & (al & HA & Ha)) Hd0 Ha0 ->.
  rewrite Hd0 in Hd. rewrite Ha0 in Ha. simpl in Hd, Ha. rewrite Hd, Ha.
  split; [exact HA|]. split.
  - intros Hn. exists dl. split; [exact HF|].
    destruct al as [|a al].
    + inversion HA as [E|]. symmetry in E. apply declared_nil in E. congruence.
    + simpl. now rewrite <- app_assoc.
  - intros Hn. apply declared_nil in Hn. rewrite Hn in HA. inversion HA; subst.
    now split.
Qed.

(** The access lists of a route that [part_000] loads. *)
Lemma route_acl (d : Directive) (r : part_000.Route) :
  part_000.parse_route d = Ok r ->
  Forall2 (fun s n => parseRange s = Ok n) (declared "allow" (Directives d))
          (part_000.Allow r)
  /\ (has_name "allow" (Directives d) = true ->
      exists denied,
        Forall2 (fun s n => parseRange s = Ok n) (declared "deny" (Directives d))
                denied
        /\ part_000.Deny r = denied ++ [all4; all6])
  /\ (has_name "allow" (Directives d) = false ->
      part_000.Allow r = []
      /\ Forall2 (fun s n => parseRange s = Ok n) (declared "deny" (Directives d))
                 (part_000.Deny r)).
Proof.
  intros H. apply parse_route_inv in H. destruct H as (domains & r1 & _ & HC & ->).
  apply children_fields in HC.
  assert (EA : part_000.Allow (part_000.default_deny r1) = part_000.Allow r1)
    by apply default_deny_backends.
  rewrite EA.
  apply (acl_of_fields part_000.Domains part_000.Deny part_000.Allow
                       (Directives d) _ r1 _ HC eq_refl eq_refl).
  unfold part_000.default_deny. now destruct (Nat.ltb _ _).
Qed.

(** The access lists of a route that [config.go] loads. *)
Lemma legacy_route_acl (d : Directive) (r : config_go.Route) :
  config_go.parse_route d = Ok r ->
  Forall2 (fun s n => parseRange s = Ok n) (declared "allow" (Directives d))
          (config_go.Allow r)
  /\ (has_name "allow" (Directives d) = true ->
      exists denied,
        Forall2 (fun s n => parseRange s = Ok n) (declared "deny" (Directives d))
                denied
        /\ config_go.Deny r = denied ++ [all4; all6])
  /\ (has_name "allow" (Directives d) = false ->
      config_go.Allow r = []
      /\ Forall2 (fun s n => parseRange s = Ok n) (declared "deny" (Directives d))
                 (config_go.Deny r)).
Proof.
  intros H. apply legacy_parse_route_inv in H.
  destruct H as (domains & r1 & _ & HC & ->).
  apply legacy_children_fields in HC.
  assert (EA : config_go.Allow (config_go.default_deny r1) = config_go.Allow r1).
  { unfold config_go.default_deny. now destruct (Nat.ltb _ _). }
  rewrite EA.
  apply (acl_of_fields config_go.Domains config_go.Deny config_go.Allow
                       (Directives d) _ r1 _ HC eq_refl eq_refl).
  unfold config_go.default_deny. now destruct (Nat.ltb _ _).
Qed.

(** X5: in a route that loads, in both loaders, [Allow] is the list of the
    prefixes that the [allow] directives of the block declare, in order; a
    block with an [allow] directive always gets the default deny, its [Deny]
    ending with [0.0.0.0/0] and [::/0]; a block without one has an empty
    [Allow] and a [Deny] of its declared prefixes alone. *)
Theorem X5_allow_list_and_default_deny (d : Directive) :
  (forall r,
     part_000.parse_route d = Ok r ->
     Forall2 (fun s n => parseRange s = Ok n) (declared "allow" (Directives d))
             (part_000.Allow r)
     /\ (has_name "allow" (Directives d) = true ->
         exists denied,
           Forall2 (fun s n => parseRange s = Ok n) (declared "deny" (Directives d))
                   denied
           /\ part_000.Deny r = denied ++ [all4; all6])
     /\ (has_name "allow" (Directives d) = false ->
         part_000.Allow r = []
         /\ Forall2 (fun s n => parseRange s = Ok n) (declared "deny" (Directives d))
                    (part_000.Deny r)))
  /\ (forall r,
        config_go.parse_route d = Ok r ->
        Forall2 (fun s n => parseRange s = Ok n) (declared "allow" (Directives d))
                (config_go.Allow r)
        /\ (has_name "allow" (Directives d) = true ->
            exists denied,
              Forall2 (fun s n => parseRange s = Ok n) (declared "deny" (Directives d))
                      denied
              /\ config_go.Deny r = denied ++ [all4; all6])
        /\ (has_name "allow" (Directives d) = false ->
            config_go.Allow r = []
            /\ Forall2 (fun s n => parseRange s = Ok n) (declared "deny" (Directives d))
                       (config_go.Deny r))).
Proof.
  split; intros r H; [now apply route_acl | now apply legacy_route_acl].
Qed.

Lemma X5_allow_list_and_default_deny_witness :
  part_000.Allow (loaded (part_000.mkRoute [] None None [] [])
                         (part_000.parse_route allow_deny_route))
  = [net.mkIPNet [10; 0; 0; 0]%Z [255; 0; 0; 0]%Z]
  /\ exists denied,
      Forall2 (fun s n => parseRange s = Ok n)
              (declared "deny" (Directives allow_deny_route)) denied
      /\ part_000.Deny (loaded (part_000.mkRoute [] None None [] [])
                               (part_000.parse_route allow_deny_route))
         = denied ++ [all4; all6].
Proof.
  split; [reflexivity|].
  apply (proj1 (proj2 (proj1 (X5_allow_list_and_default_deny allow_deny_route)
                             _ eq_refl))).
  reflexivity.
Defined.

Lemma Contains_all4 (x y : net.IP) : net.To4 x = Some y -> net.Contains all4 x = true.
Proof.
  intros H. assert (Hy : length y = 4).
  { destruct (To4_Some x y H) as [[E ->]|[_ E]]; exact E. }
  unfold net.Contains. change (net.networkNumberAndMask all4)
    with (Some ([0; 0; 0; 0]%Z, [0; 0; 0; 0]%Z)).
  rewrite H, Hy. cbn -[Z.land Z.eqb nth net.Contains_loop]. unfold net.Contains_loop.
  apply forallb_forall. intros i Hi.
  assert (Hz : nth i [0; 0; 0; 0]%Z 0%Z = 0%Z) by (do 5 (destruct i; try reflexivity)).
  now rewrite Hz, !Z.land_0_r.
Qed.

Lemma Contains_all6 (x : net.IP) :
  net.To4 x = None -> length x = 16 -> net.Contains all6 x = true.
Proof.
  intros H Hl. unfold net.Contains.
  change (net.networkNumberAndMask all6) with (Some (repeat 0%Z 16, repeat 0%Z 16)).
  rewrite H, Hl. cbn -[Z.land Z.eqb nth repeat net.Contains_loop].
  unfold net.Contains_loop.
  apply forallb_forall. intros i Hi.
  assert (Hz : nth i (repeat 0%Z 16) 0%Z = 0%Z) by (do 17 (destruct i; try reflexivity)).
  now rewrite Hz, !Z.land_0_r.
Qed.

Lemma Contains_all4_only (x : net.IP) : net.Contains all4 x = true -> net.To4 x <> None.
Proof.
  intros H E. unfold net.Contains in H.
  change (net.networkNumberAndMask all4)
    with (Some ([0; 0; 0; 0]%Z, [0; 0; 0; 0]%Z)) in H.
  rewrite E in H. cbn -[Z.land Z.eqb nth] in H.
  apply To4_None_length in E.
  destruct (Nat.eqb (length x) 4) eqn:El; [apply Nat.eqb_eq in El; lia|discriminate].
Qed.

Lemma Contains_all6_only (x : net.IP) : net.Contains all6 x = true -> net.To4 x = None.
Proof.
  intros H. destruct (net.To4 x) as [y|] eqn:E; [|reflexivity]. exfalso.
  assert (Hy : length y = 4).
  { destruct (To4_Some x y E) as [[El ->]|[_ El]]; exact El. }
  unfold net.Contains in H.
  change (net.networkNumberAndMask all6)
    with (Some (repeat 0%Z 16, repeat 0%Z 16)) in H.
  rewrite E, Hy in H. discriminate.
Qed.

(** X6: the two prefixes of the default deny match all addresses between
    them, as the comment in [parse] says: [0.0.0.0/0] contains exactly the
    addresses that [To4] takes for IPv4 (four bytes, or sixteen bytes of an
    IPv4-mapped address) and [::/0] exactly the other sixteen-byte
    addresses, so every address is in the [Deny] of a route whose block has
    an [allow] directive. *)
Theorem X6_default_deny_matches_all (x : net.IP) :
  length x = 4 \/ length x = 16 ->
  (net.Contains all4 x = true \/ net.Contains all6 x = true)
  /\ (net.Contains all4 x = true <-> net.To4 x <> None)
  /\ (net.Contains all6 x = true <-> net.To4 x = None)
  /\ (forall d r,
        part_000.parse_route d = Ok r -> has_name "allow" (Directives d) = true ->
        exists n, In n (part_000.Deny r) /\ net.Contains n x = true)
  /\ (forall d r,
        config_go.parse_route d = Ok r -> has_name "allow" (Directives d) = true ->
        exists n, In n (config_go.Deny r) /\ net.Contains n x = true).
Proof.
  intros Hl.
  assert (Hl16 : net.To4 x = None -> length x = 16).
  { intros E. destruct Hl as [Hl|Hl]; [|exact Hl]. now apply To4_None_length in E. }
  assert (Hor : net.Contains all4 x = true \/ net.Contains all6 x = true).
  { destruct (net.To4 x) as [y|] eqn:E.
    - left. now apply (Contains_all4 x y).
    - right. apply Contains_all6; auto. }
  assert (Hdeny : forall deny denied,
             deny = denied ++ [all4; all6] ->
             exists n, In n deny /\ net.Contains n x = true).
  { intros deny denied ->. destruct Hor as [H|H].
    - exists all4. split; [|exact H]. apply in_or_app. right. now left.
    - exists all6. split; [|exact H]. apply in_or_app. right. right. now left. }
  split; [exact Hor|]. split; [|split; [|split]].
  - split; [apply Contains_all4_only|].
    intros H. destruct (net.To4 x) as [y|] eqn:E; [|congruence].
    now apply (Contains_all4 x y).
  - split; [apply Contains_all6_only|]. intros E. apply Contains_all6; auto.
  - intros d r Hr Hn.
    destruct (route_acl d r Hr) as (_ & Hd & _).
    destruct (Hd Hn) as (denied & _ & E). eapply Hdeny. exact E.
  - intros d r Hr Hn.
    destruct (legacy_route_acl d r Hr) as (_ & Hd & _).
    destruct (Hd Hn) as (denied & _ & E). eapply Hdeny. exact E.
Qed.

Lemma X6_default_deny_matches_all_witness :
  net.Contains all4 [11; 0; 0; 1]%Z = true
  /\ exists n,
      In n (part_000.Deny (loaded (part_000.mkRoute [] None None [] [])
                                  (part_000.parse_route allow_deny_route)))
      /\ net.Contains n [11; 0; 0; 1]%Z = true.
Proof.
  split.
  - apply (proj1 (proj2 (X6_default_deny_matches_all [11; 0; 0; 1]%Z
                                                     (or_introl eq_refl)))).
    discriminate.
  - apply (proj1 (proj2 (proj2 (proj2 (X6_default_deny_matches_all
                                         [11; 0; 0; 1]%Z (or_introl eq_refl)))))
             allow_deny_route); reflexivity.
Defined.

Lemma append_ranges_fatal (l : list net.IPNet) (arg s : string) :
  In s (strings.Split arg comma) -> is_fatal (parseRange s) = true ->
  is_fatal (append_ranges l arg) = true.
Proof.
  intros Hin Hs. pose proof (append_ranges_total l arg) as Ht.
  destruct (append_ranges l arg) as [out| |] eqn:E; [|reflexivity|congruence].
  apply append_ranges_Ok in E. destruct E as (ns & HF & _).
  destruct (Forall2_In_l _ _ _ _ HF Hin) as (n & _ & Hn).
  rewrite Hn in Hs. discriminate.
Qed.

Lemma bind_fatal {A B : Type} (x : outcome A) (f : A -> outcome B) :
  is_fatal x = true -> is_fatal (bind x f) = true.
Proof. destruct x; simpl; congruence. Qed.

(** X7: an empty element in the argument of a [deny] or [allow] directive (an
    empty argument, a leading, a trailing or a doubled comma) is fatal in
    both loaders: unlike an empty element of a domain list, which loads,
    the list of subnets [10.0.0.0/8,] stops the process. *)
Theorem X7_empty_subnet_is_fatal (dir : Directive) (arg : string) :
  In (Name dir) ["deny"; "allow"] -> Args dir = [arg] ->
  In "" (strings.Split arg comma) ->
  (forall l, is_fatal (append_ranges l arg) = true)
  /\ (forall r, is_fatal (part_000.parse_case r dir) = true)
  /\ (forall r, is_fatal (config_go.parse_case r dir) = true)
  /\ (forall c root d,
        In d (Directives root) -> In dir (Directives d) ->
        succeeded (part_000.parse c root) = false).
Proof.
  intros Hn Ha Hin.
  assert (Hl : forall l, is_fatal (append_ranges l arg) = true).
  { intros l. apply (append_ranges_fatal l arg "" Hin). reflexivity. }
  split; [exact Hl|]. split; [|split].
  - intros r. unfold part_000.parse_case.
    name_cases Hn; rewrite Ha; cbn; apply bind_fatal, Hl.
  - intros r. unfold config_go.parse_case.
    name_cases Hn; rewrite Ha; cbn; apply bind_fatal, Hl.
  - intros c root d Hd Hdir. apply content_error_no_load.
    right. left. exists d, dir, "". rewrite Ha. cbn [nth].
    repeat split; auto.
Qed.

Lemma X7_empty_subnet_is_fatal_witness :
  part_000.parse_case (part_000.mkRoute [] None None [] []) trailing_comma_allow
  = Fatal (Msg "Could not parse subnet ")
  /\ is_fatal (part_000.parse_case (part_000.mkRoute [] None None [] [])
                                   trailing_comma_allow) = true.
Proof.
  split; [reflexivity|].
  apply (proj1 (proj2 (X7_empty_subnet_is_fatal trailing_comma_allow "10.0.0.0/8,"
                         (or_intror (or_introl eq_refl)) eq_refl
                         (or_intror (or_introl eq_refl))))).
Defined.

Section Exact.

Import regexp.

Lemma glob_no_star (p : string) :
  no_star p = true -> forall s, glob_exact p s = true <-> s = p.
Proof.
  unfold glob_exact.
  induction p as [|c p IH]; intros Hp s.
  - destruct s; simpl; split; congruence.
  - simpl in Hp. apply andb_prop in Hp. destruct Hp as [Hc Hp].
    apply negb_true_iff in Hc. cbn [glob]. rewrite Hc.
    destruct s as [|x s]; [split; discriminate|]. split.
    + intros H. apply andb_prop in H. destruct H as [Hx H].
      apply Ascii.eqb_eq in Hx. apply (IH Hp) in H. congruence.
    + intros E. inversion E; subst. rewrite Ascii.eqb_refl. simpl. now apply IH.
Qed.


Lemma no_star_app (a b : string) : no_star (a ++ b) = no_star a && no_star b.
Proof. induction a as [|c a IH]; simpl; [reflexivity|]. now rewrite IH, andb_assoc. Qed.

End Exact.

(** X8: a pattern without [*] names one host. The matcher of [part_000]
    accepts exactly the host that is the pattern, byte for byte; the matcher
    that [config.go] builds for the same pattern accepts every host that
    contains the pattern, [example.com.evil.org] for [example.com]. *)
Theorem X8_pattern_without_star (p s : string) :
  glob_pattern p = true -> no_star p = true ->
  (accepts (part_000.domain2Regex p) s = true <-> s = p)
  /\ (accepts (config_go.domain2Regex p) s = true
      <-> exists a b, s = (a ++ p ++ b)%string).
Proof.
  intros Hp Hs. split.
  - unfold accepts. rewrite (domain2Regex_anchored p Hp), MatchString_anchored.
    rewrite matchhere_glob_items. now apply glob_no_star.
  - unfold accepts. rewrite (domain2Regex_bare p Hp).
    unfold regexp.MatchString. rewrite search_glob_items. split.
    + intros (a & m & b & E & Hm). apply (glob_no_star p Hs) in Hm. subst m.
      now exists a, b.
    + intros (a & b & E). exists a, p, b. split; [exact E|].
      now apply (glob_no_star p Hs).
Qed.

Lemma X8_pattern_without_star_witness :
  accepts (part_000.domain2Regex "example.com") "example.com.evil.org" = false
  /\ (accepts (part_000.domain2Regex "example.com") "example.com" = true
      <-> "example.com" = "example.com")
  /\ accepts (config_go.domain2Regex "example.com") "example.com.evil.org" = true.
Proof.
  split; [reflexivity|]. split.
  - exact (proj1 (X8_pattern_without_star "example.com" "example.com"
                                          eq_refl eq_refl)).
  - apply (proj2 (X8_pattern_without_star "example.com" "example.com.evil.org"
                                          eq_refl eq_refl)).
    now exists "", ".evil.org".
Defined.



(** X12: for a pattern of [*], [.] and literal bytes, every host that the
    anchored matcher of [part_000] accepts is accepted by the matcher that
    [config.go] builds for the same pattern: the anchors only take hosts
    away. *)
Theorem X12_anchors_only_restrict (p s : string) :
  glob_pattern p = true ->
  accepts (part_000.domain2Regex p) s = true ->
  accepts (config_go.domain2Regex p) s = true.
Proof.
  intros Hp H. unfold accepts in *.
  rewrite (domain2Regex_anchored p Hp), MatchString_anchored,
    matchhere_glob_items in H.
  rewrite (domain2Regex_bare p Hp). unfold regexp.MatchString.
  apply search_glob_items. exists "", s, "". split; [|exact H].
  simpl. clear. induction s as [|c s IH]; simpl; congruence.
Qed.

Lemma X12_anchors_only_restrict_witness :
  accepts (config_go.domain2Regex "*.example.com") "a.example.com" = true.
Proof.
  apply (X12_anchors_only_restrict "*.example.com" "a.example.com");
    reflexivity.
Defined.

Lemma legacy_Backend_loop (dirs : list Directive) :
  forall r r',
  range_loop config_go.parse_case dirs r = Ok r' ->
  config_go.Backend r'
  = match last_named "backend" dirs with
    | Some dir => nth 0 (Args dir) ""
    | None => config_go.Backend r
    end.
Proof.
  induction dirs as [|d dirs IH]; intros r r' H.
  - simpl in H. now inversion H.
  - simpl in H. apply bind_Ok in H. destruct H as (r1 & H1 & H).
    apply IH in H. rewrite H, last_named_cons. clear H IH.
    destruct (last_named "backend" dirs); [reflexivity|].
    unfold config_go.parse_case in H1.
    destruct (String.eqb (Name d) "backend") eqn:Eb.
    { destruct (negb _); [discriminate|]. now inversion H1. }
    destruct (String.eqb (Name d) "deny").
    { destruct (negb _); [discriminate|]. apply bind_Ok in H1.
      destruct H1 as (l & _ & H1). now inversion H1. }
    destruct (String.eqb (Name d) "allow").
    { destruct (negb _); [discriminate|]. apply bind_Ok in H1.
      destruct H1 as (l & _ & H1). now inversion H1. }
    destruct (String.eqb (Name d) "send-proxy").
    { destruct (Nat.ltb 0 (length (Args d))); [discriminate|]. now inversion H1. }
    destruct (String.eqb (Name d) "send-proxy-v2").
    { destruct (Nat.ltb 0 (length (Args d))); [discriminate|]. now inversion H1. }
    now inversion H1.
Qed.

(** X10: in the loader of [config.go] the PROXY variant belongs to the
    route: it is decided by the last [send-proxy] or [send-proxy-v2] among
    the children of the route block, the backend is the argument of the
    last [backend] directive (the empty address when there is none), and
    the nested block of a directive is never read, so [send-proxy] inside a
    [backend] block has no effect there. *)
Theorem X10_legacy_variant_of_the_route (d : Directive) (r : config_go.Route) :
  config_go.parse_route d = Ok r ->
  config_go.SendProxy r = last_variant (Directives d) ProxyNone
  /\ config_go.Backend r
     = match last_named "backend" (Directives d) with
       | Some dir => nth 0 (Args dir) ""
       | None => ""
       end
  /\ config_go.parse_route d
     = config_go.parse_route
         (mkDirective (Name d) (Args d)
                      (map (fun dir => leaf (Name dir) (Args dir)) (Directives d))).
Proof.
  intros H. split; [|split].
  - apply legacy_parse_route_inv in H. destruct H as (domains & r1 & _ & HC & ->).
    apply legacy_SendProxy_loop in HC. unfold config_go.default_deny.
    now destruct (Nat.ltb _ _).
  - apply legacy_parse_route_inv in H. destruct H as (domains & r1 & _ & HC & ->).
    apply legacy_Backend_loop in HC. unfold config_go.default_deny.
    now destruct (Nat.ltb _ _).
  - clear H. unfold config_go.parse_route. cbn [Name Directives].
    destruct (range_loop (append_domain config_go.domain2Regex) _ _); try reflexivity.
    cbn [bind]. f_equal.
    generalize (config_go.set_Domains (config_go.mkRoute [] "" [] [] ProxyNone) a).
    induction (Directives d) as [|x l IH]; intros r0; [reflexivity|].
    cbn [map range_loop].
    replace (config_go.parse_case r0 (leaf (Name x) (Args x)))
      with (config_go.parse_case r0 x) by reflexivity.
    destruct (config_go.parse_case r0 x); try reflexivity. cbn [bind]. apply IH.
Qed.

Lemma X10_legacy_variant_of_the_route_witness :
  config_go.SendProxy (loaded (config_go.mkRoute [] "" [] [] ProxyNone)
                              (config_go.parse_route legacy_proxy_route))
  = ProxyV2
  /\ config_go.SendProxy (loaded (config_go.mkRoute [] "" [] [] ProxyNone)
                                 (config_go.parse_route
                                    (mkDirective "other.org" [] [proxy_backend])))
     = ProxyNone.
Proof.
  split.
  - exact (proj1 (X10_legacy_variant_of_the_route legacy_proxy_route _ eq_refl)).
  - exact (proj1 (X10_legacy_variant_of_the_route
                    (mkDirective "other.org" [] [proxy_backend]) _ eq_refl)).
Defined.

Lemma Forall2_functional {A B : Type} (f : A -> outcome B) (xs : list A) :
  forall ys zs,
  Forall2 (fun x y => f x = Ok y) xs ys -> Forall2 (fun x y => f x = Ok y) xs zs ->
  ys = zs.
Proof.
  induction xs as [|x xs IH]; intros ys zs Hy Hz;
    inversion Hy; inversion Hz; subst; [reflexivity|].
  f_equal; [congruence|now apply IH].
Qed.

(** X11: the two loaders agree on the access lists: a route block that both
    load gets the same [Deny] and the same [Allow] from both. *)
Theorem X11_loaders_agree_on_access_lists (d : Directive) (r : part_000.Route)
  (r' : config_go.Route) :
  part_000.parse_route d = Ok r -> config_go.parse_route d = Ok r' ->
  part_000.Deny r = config_go.Deny r' /\ part_000.Allow r = config_go.Allow r'.
Proof.
  intros H H'. apply route_acl in H. apply legacy_route_acl in H'.
  destruct H as (HA & Hyes & Hno), H' as (HA' & Hyes' & Hno').
  split; [|exact (Forall2_functional parseRange _ _ _ HA HA')].
  destruct (has_name "allow" (Directives d)).
  - destruct (Hyes eq_refl) as (dl & HF & ->).
    destruct (Hyes' eq_refl) as (dl' & HF' & ->).
    now rewrite (Forall2_functional parseRange _ _ _ HF HF').
  - destruct (Hno eq_refl) as (_ & HF). destruct (Hno' eq_refl) as (_ & HF').
    exact (Forall2_functional parseRange _ _ _ HF HF').
Qed.

Lemma X11_loaders_agree_on_access_lists_witness :
  part_000.Deny (loaded (part_000.mkRoute [] None None [] [])
                        (part_000.parse_route allow_deny_route))
  = config_go.Deny (loaded (config_go.mkRoute [] "" [] [] ProxyNone)
                           (config_go.parse_route allow_deny_route)).
Proof.
  exact (proj1 (X11_loaders_agree_on_access_lists allow_deny_route _ _
                                                  eq_refl eq_refl)).
Defined.

(** X13: [ReadFile] never empties the configuration it is given. The routes
    that a file adds do not depend on the routes that are there, and they
    come after them: reading the same file into the result once more
    appends the same routes a second time. *)
Theorem X13_ReadFile_appends (env : Env) (c c1 : part_000.Config) (file : string) :
  part_000.ReadFile env c file = Ok (c1, None) ->
  exists routes,
    part_000.Routes c1 = part_000.Routes c ++ routes
    /\ (forall c0,
          part_000.ReadFile env c0 file
          = Ok (part_000.mkConfig (part_000.Routes c0 ++ routes), None))
    /\ part_000.ReadFile env c1 file
       = Ok (part_000.mkConfig (part_000.Routes c ++ routes ++ routes), None).
Proof.
  unfold part_000.ReadFile. destruct (os_Open env file) as [f|e]; [|discriminate].
  intros H. apply bind_Ok in H. destruct H as (root & Hroot & H).
  apply bind_Ok in H. destruct H as (c' & Hp & H). inversion H; subst c'; clear H.
  apply parse_routes in Hp. destruct Hp as (routes & HF & ->).
  assert (Hany : forall c0,
             (root <- parseDirective env (newLexer env f) ;;
              c' <- part_000.parse c0 root ;; Ok (c', None))
             = Ok (part_000.mkConfig (part_000.Routes c0 ++ routes),
                   @None error)).
  { intros c0. rewrite Hroot. cbn [bind].
    assert (E : part_000.parse c0 root
                = Ok (part_000.mkConfig (part_000.Routes c0 ++ routes))).
    { apply parse_routes. now exists routes. }
    now rewrite E. }
  exists routes. split; [reflexivity|]. split; [exact Hany|].
  rewrite Hany. cbn. now rewrite <- app_assoc.
Qed.

Lemma X13_ReadFile_appends_witness :
  exists routes,
    part_000.Routes
      (fst (loaded (part_000.mkConfig [], None)
                   (part_000.ReadFile (one_file two_routes_root)
                                      (part_000.mkConfig []) "sniproxy.conf")))
    = part_000.Routes (part_000.mkConfig []) ++ routes
    /\ (forall c0,
          part_000.ReadFile (one_file two_routes_root) c0 "sniproxy.conf"
          = Ok (part_000.mkConfig (part_000.Routes c0 ++ routes), None))
    /\ part_000.ReadFile (one_file two_routes_root)
         (fst (loaded (part_000.mkConfig [], None)
                      (part_000.ReadFile (one_file two_routes_root)
                                         (part_000.mkConfig []) "sniproxy.conf")))
         "sniproxy.conf"
       = Ok (part_000.mkConfig (part_000.Routes (part_000.mkConfig [])
                                ++ routes ++ routes), None).
Proof.
  apply (X13_ReadFile_appends (one_file two_routes_root) (part_000.mkConfig [])).
  vm_compute. reflexivity.
Defined.










Lemma append_ranges_joined (l : list net.IPNet) (a b : string) :
  append_ranges l (a ++ String comma b)
  = (l1 <- append_ranges l a ;; append_ranges l1 b).
Proof. unfold append_ranges. rewrite Split_app_sep. apply range_loop_app. Qed.

(** X15: [deny] and [allow] directives add up where [backend] directives
    replace one another: in both loaders, two [deny] directives (or two
    [allow] directives) one after the other load as the one directive whose
    argument is the two arguments joined by a comma. *)
Theorem X15_subnet_directives_add_up (name a b : string) :
  In name ["deny"; "allow"] ->
  (forall r,
     range_loop part_000.parse_case [leaf name [a]; leaf name [b]] r
     = part_000.parse_case r (leaf name [(a ++ String comma b)%string]))
  /\ (forall r,
        range_loop config_go.parse_case [leaf name [a]; leaf name [b]] r
        = config_go.parse_case r (leaf name [(a ++ String comma b)%string])).
Proof.
  intros Hn. split; intros r.
  - cbn [range_loop]. unfold part_000.parse_case.
    name_cases Hn;
      cbn [String.eqb Ascii.eqb Bool.eqb leaf Name Args length Nat.eqb negb nth];
      rewrite append_ranges_joined;
      destruct (append_ranges _ a) as [l1| |]; cbn; try reflexivity;
      destruct (append_ranges l1 b); reflexivity.
  - cbn [range_loop]. unfold config_go.parse_case.
    name_cases Hn;
      cbn [String.eqb Ascii.eqb Bool.eqb leaf Name Args length Nat.eqb negb nth];
      rewrite append_ranges_joined;
      destruct (append_ranges _ a) as [l1| |]; cbn; try reflexivity;
      destruct (append_ranges l1 b); reflexivity.
Qed.

Lemma X15_subnet_directives_add_up_witness :
  range_loop part_000.parse_case
             [leaf "deny" ["10.1.0.0/16"]; leaf "deny" ["192.0.2.7"]]
             (part_000.mkRoute [] None None [] [])
  = part_000.parse_case (part_000.mkRoute [] None None [] [])
                        (leaf "deny" ["10.1.0.0/16,192.0.2.7"]).
Proof.
  apply (proj1 (X15_subnet_directives_add_up "deny" "10.1.0.0/16" "192.0.2.7"
                                             (or_introl eq_refl))).
Defined.
